(** * tcpproxy: the relay engine of [tcpproxy/tcpproxy.py]

    A shallow embedding of [ProxyConfig.__init__], [ProxyConfig.getProxyAttrList],
    [TCPProxyServer] ([set], [shutDown], [serveConnection], [_handle_socket],
    [_forward]) and [TCPProxy.serve].

    Every thread of the program is a computation in a small state-and-exception
    monad.  The state of a thread is the object it runs on ([self]), the replies
    the operating system and the other threads still have in store for it
    ([pending]) and the calls it has made so far ([trace]).  A blocking call
    takes the next reply; another thread calling [shutDown] on the same object
    while the call is pending is a reply of its own kind ([Stop]). *)

From Stdlib Require Import ZArith List String Ascii Bool Lia DecimalString.
From Stdlib.Strings Require Byte.
Import ListNotations.
Open Scope string_scope.
Open Scope Z_scope.

(** ** Python values that cross the socket interface *)

(** What a socket call hands back: [None], a socket object, or a [bytes]
    object.  For [accept] the value is component 0 of the pair it returns
    (the source writes [dock_socket.accept()[0]]). *)
Inductive pyobj : Type :=
| PyNone
| PySocket (fd : nat)
| PyBytes (bs : list Byte.byte).

(** Python truthiness, as used by [if data:]. *)
Definition truthy (v : pyobj) : bool :=
  match v with
  | PyNone => false
  | PySocket _ => true
  | PyBytes [] => false
  | PyBytes (_ :: _) => true
  end.


(** ** The [str] methods used by [set] *)

Module PyStr.

(** [s.find(c)] for a one-character [c]: lowest index, or -1. *)
Fixpoint find_from (c : ascii) (s : string) (i : Z) : Z :=
  match s with
  | EmptyString => -1
  | String a s' => if Ascii.eqb a c then i else find_from c s' (i + 1)
  end.

Definition find (c : ascii) (s : string) : Z := find_from c s 0.

(** [s.split(c)] for a one-character separator [c]. *)
Fixpoint split (c : ascii) (s : string) : list string :=
  match s with
  | EmptyString => [EmptyString]
  | String a s' =>
      if Ascii.eqb a c then EmptyString :: split c s'
      else match split c s' with
           | [] => [String a EmptyString]
           | h :: t => String a h :: t
           end
  end.

(** [l[0]] on the result of [split], which is never the empty list
    ([split_not_nil] below), so that [IndexError] does not arise. *)
Definition item0 (l : list string) : string := hd EmptyString l.

(** [str(n)] for an [int], as [format] prints it. *)
Definition of_int (n : Z) : string := NilZero.string_of_int (Z.to_int n).

(** Does [c] occur in [s]? *)
Fixpoint mem (c : ascii) (s : string) : bool :=
  match s with
  | EmptyString => false
  | String a s' => Ascii.eqb a c || mem c s'
  end.

End PyStr.

(** ** Routes and the listener object *)

(** One entry of the configuration list: [attrList[0..3]]. *)
Record attrs : Type := mkAttrs {
  attr0 : string;   (* the bind address *)
  attr1 : Z;        (* the port to listen on *)
  attr2 : string;   (* the destination address *)
  attr3 : Z         (* the destination port *)
}.

(** The fields [set] gives a [TCPProxyServer]; [_uio] is the logger, whose
    calls appear in the trace. *)
Record TCPProxyServer : Type := mkServer {
  _attrList : attrs;
  _bindAddress : string;
  _listenPort : Z;
  _destAddress : string;
  _destPort : Z;
  _running : bool;
  _backLog : Z
}.

(** The two [if addr.find("/") > 0: addr = addr.split("/")[0]] of [set]. *)
Definition strip_mask (addr : string) : string :=
  if PyStr.find "/" addr >? 0 then PyStr.item0 (PyStr.split "/" addr)
  else addr.

Definition set (attrList : attrs) (backLog : Z) : TCPProxyServer :=
  {| _attrList := attrList;
     _bindAddress := strip_mask (attr0 attrList);
     _listenPort := attr1 attrList;
     _destAddress := strip_mask (attr2 attrList);
     _destPort := attr3 attrList;
     _running := false;
     _backLog := backLog |}.

Definition shutDown (self : TCPProxyServer) : TCPProxyServer :=
  {| _attrList := _attrList self;
     _bindAddress := _bindAddress self;
     _listenPort := _listenPort self;
     _destAddress := _destAddress self;
     _destPort := _destPort self;
     _running := false;
     _backLog := _backLog self |}.

(** ** Calls, replies and events *)

(** The calls into the [socket] module made by the relay engine. *)
Inductive syscall : Type :=
| sys_socket                                        (* socket.socket(AF_INET, SOCK_STREAM) *)
| sys_setsockopt (s : pyobj)                        (* s.setsockopt(SOL_SOCKET, SO_REUSEADDR, 1) *)
| sys_bind (s : pyobj) (addr : string) (port : Z)   (* s.bind((addr, port)) *)
| sys_listen (s : pyobj) (backlog : Z)              (* s.listen(backlog) *)
| sys_accept (s : pyobj)                            (* s.accept()[0] *)
| sys_connect (s : pyobj) (addr : string) (port : Z)
| sys_recv (s : pyobj) (bufsize : Z)                (* s.recv(bufsize) *)
| sys_sendall (s : pyobj) (data : pyobj).           (* s.sendall(data) *)

(** What the world answers to a pending call.  [Stop] is not an answer: it is
    another thread running [shutDown] on the object while the call waits. *)
Inductive reply : Type :=
| Returns (v : pyobj)
| Raises
| Stop.

Inductive level : Type := Debug | Info | Error.

(** What a started [Thread] runs. *)
Inductive target : Type :=
| run (srv : TCPProxyServer)                       (* TCPProxyServer.run *)
| forward_of (source destination : pyobj).         (* target=self._forward *)

Inductive event : Type :=
| Call (c : syscall)                                 (* the call is made *)
| Ret (c : syscall) (v : pyobj)                     (* it returns [v] *)
| Exc (c : syscall)                                 (* it raises *)
| ShutDownCalled                                    (* a [Stop] is applied *)
| Log (lvl : level) (msg : string)                  (* uio.debug / uio.info / uio.error *)
| ErrorException                                    (* uio.errorException() *)
| Sleep (ms : Z)                                    (* sleep(ms / 1000) *)
| Start (t : target).                               (* Thread(...).start() *)

Inductive outcome (A : Type) : Type :=
| Returned (a : A)     (* the code ran to its end *)
| Raised               (* an exception leaves the code *)
| Blocked              (* parked for ever in a call: no reply is left *)
| OutOfFuel.           (* the model stopped unrolling a loop *)
Arguments Returned {A} a.
Arguments Raised {A}.
Arguments Blocked {A}.
Arguments OutOfFuel {A}.

(** The outcome of a [finally] clause [o] after a body that returned [b]. *)
Definition abort {A B : Type} (o : outcome A) (b : B) : outcome B :=
  match o with
  | Returned _ => Returned b
  | Raised => Raised
  | Blocked => Blocked
  | OutOfFuel => OutOfFuel
  end.

(** The outcome of a [finally] clause [o] after a body that raised. *)
Definition reraise {A B : Type} (o : outcome A) : outcome B :=
  match o with
  | Returned _ => Raised
  | Raised => Raised
  | Blocked => Blocked
  | OutOfFuel => OutOfFuel
  end.

(** ** The monad of a thread *)

Record world (O : Type) : Type := mkWorld {
  self : O;
  pending : list reply;
  trace : list event
}.
Arguments mkWorld {O} self pending trace.
Arguments self {O} w.
Arguments pending {O} w.
Arguments trace {O} w.

Definition M (O A : Type) : Type := world O -> outcome A * world O.

(** How an object takes a [Stop]. *)
Class Stoppable (O : Type) : Type := on_stop : O -> O.

#[export] Instance TCPProxyServer_stoppable : Stoppable TCPProxyServer := shutDown.
#[export] Instance unit_stoppable : Stoppable unit := fun u => u.

Section Monad.
Context {O : Type}.

Definition ret {A : Type} (a : A) : M O A := fun w => (Returned a, w).

Definition raise {A : Type} : M O A := fun w => (Raised, w).

Definition mbind {A B : Type} (m : M O A) (k : A -> M O B) : M O B :=
  fun w =>
    match m w with
    | (Returned a, w') => k a w'
    | (Raised, w') => (Raised, w')
    | (Blocked, w') => (Blocked, w')
    | (OutOfFuel, w') => (OutOfFuel, w')
    end.

Definition emit (e : event) : M O unit :=
  fun w => (Returned tt, mkWorld (self w) (pending w) (trace w ++ [e])).

(** [try: body except: handler], with a bare [except]. *)
Definition try_except {A : Type} (body handler : M O A) : M O A :=
  fun w =>
    match body w with
    | (Raised, w') => handler w'
    | r => r
    end.

(** [try: body finally: fin]: [fin] runs whether [body] returned or
    raised; afterwards the exception of [body], if any, goes on. *)
Definition try_finally {A : Type} (body : M O A) (fin : M O unit) : M O A :=
  fun w =>
    match body w with
    | (Returned a, w') => let (o, w'') := fin w' in (abort o a, w'')
    | (Raised, w') => let (o, w'') := fin w' in (reraise o, w'')
    | r => r
    end.

(** [for x in l: body x]. *)
Fixpoint for_each {X : Type} (l : list X) (body : X -> M O unit) : M O unit :=
  match l with
  | [] => ret tt
  | x :: l' => mbind (body x) (fun _ => for_each l' body)
  end.

(** A call into the socket module: it is recorded, then waits for its
    reply; every [Stop] that comes first is applied to the object. *)
Fixpoint await `{Stoppable O} (c : syscall) (o : O) (p : list reply)
  (t : list event) : outcome pyobj * world O :=
  match p with
  | [] => (Blocked, mkWorld o [] t)
  | Stop :: p' => await c (on_stop o) p' (t ++ [ShutDownCalled])
  | Returns v :: p' => (Returned v, mkWorld o p' (t ++ [Ret c v]))
  | Raises :: p' => (Raised, mkWorld o p' (t ++ [Exc c]))
  end.

Definition call `{Stoppable O} (c : syscall) : M O pyobj :=
  fun w => await c (self w) (pending w) (trace w ++ [Call c]).
End Monad.

Declare Scope monad_scope.
Delimit Scope monad_scope with monad.
Notation "x <- m ;; k" := (mbind m (fun x => k))
  (at level 100, m at next level, right associativity) : monad_scope.
Notation "m ;; k" := (mbind m (fun _ => k))
  (at level 100, right associativity) : monad_scope.
Open Scope monad_scope.

(** ** [class TCPProxyServer(Thread)] *)

(** ["{}:{}".format(addr, port)] *)
Definition endpoint (addr : string) (port : Z) : string :=
  addr ++ ":" ++ PyStr.of_int port.

Definition rxBufferSize_default : Z := 65536.

Definition backLog_default : Z := 5.

(** [sleep(0.25)], in milliseconds. *)
Definition retry_pause_ms : Z := 250.

Section Server.
Local Abbreviation T := (M TCPProxyServer).

(** Evaluate the [self.x] of an expression in the current state. *)
Definition with_self {A : Type} (k : TCPProxyServer -> T A) : T A :=
  fun w => k (self w) w.

(** [self._running = True] *)
Definition start_running : T unit :=
  fun w =>
    (Returned tt,
     mkWorld {| _attrList := _attrList (self w);
                _bindAddress := _bindAddress (self w);
                _listenPort := _listenPort (self w);
                _destAddress := _destAddress (self w);
                _destPort := _destPort (self w);
                _running := true;
                _backLog := _backLog (self w) |}
             (pending w) (trace w)).

Definition _debug (msg : string) : T unit := emit (Log Debug msg).
Definition _info (msg : string) : T unit := emit (Log Info msg).
Definition _error (msg : string) : T unit := emit (Log Error msg).

(** [while self._running: body], unrolled at most [fuel] times. *)
Fixpoint while_running_fuel (fuel : nat) (body : T unit) : T unit :=
  match fuel with
  | O => fun w => (OutOfFuel, w)
  | S n =>
      fun w =>
        if _running (self w) then (body ;; while_running_fuel n body) w
        else (Returned tt, w)
  end.

(** [while self._running: body].  Every turn of the loops of this file
    takes a reply, so one turn more than there are replies is enough
    ([serveConnection_fuel], [forward_fuel]). *)
Definition while_running (body : T unit) : T unit :=
  fun w => while_running_fuel (S (List.length (pending w))) body w.

Definition _forward_body (source destination : pyobj) (rxBufferSize : Z)
  : T unit :=
  data <- call (sys_recv source rxBufferSize) ;;
  if truthy data then
    call (sys_sendall destination data) ;; ret tt
  else ret tt.

Definition _forward (source destination : pyobj) (rxBufferSize : Z) : T unit :=
  try_except
    (while_running (_forward_body source destination rxBufferSize))
    (_info "Disconnected").

Definition _handle_socket (client_socket server_socket : pyobj) : T unit :=
  with_self (fun self =>
    call (sys_connect server_socket (_destAddress self) (_destPort self))) ;;
  (* threadA *)
  emit (Start (forward_of client_socket server_socket)) ;;
  (* threadB *)
  emit (Start (forward_of server_socket client_socket)) ;;
  with_self (fun self =>
    _info ("Connected " ++ endpoint (_bindAddress self) (_listenPort self)
           ++ " to " ++ endpoint (_destAddress self) (_destPort self))).

Definition accept_body (dock_socket : pyobj) : T unit :=
  client_socket <- call (sys_accept dock_socket) ;;
  server_socket <- call sys_socket ;;
  _handle_socket client_socket server_socket.

Definition listen_body (dock_socket : pyobj) : T unit :=
  with_self (fun self => call (sys_listen dock_socket (_backLog self))) ;;
  while_running (accept_body dock_socket).

Definition serveConnection : T unit :=
  start_running ;;
  with_self (fun self =>
    _debug ("Started server: Listen on TCP/IP port "
            ++ endpoint (_bindAddress self) (_listenPort self)
            ++ " and forward to "
            ++ endpoint (_destAddress self) (_destPort self))) ;;
  try_finally
    (try_except
       (dock_socket <- call sys_socket ;;
        call (sys_setsockopt dock_socket) ;;
        with_self (fun self =>
          call (sys_bind dock_socket (_bindAddress self) (_listenPort self))) ;;
        while_running (listen_body dock_socket))
       (emit ErrorException ;;
        emit (Sleep retry_pause_ms)))
    (with_self (fun self =>
       _debug ("Shutdown server listening on "
               ++ endpoint (_bindAddress self) (_listenPort self)))).

(** [Thread.run] of a started thread. *)
Definition run_target (t : target) : T unit :=
  match t with
  | run _ => serveConnection
  | forward_of source destination =>
      _forward source destination rxBufferSize_default
  end.
End Server.

(** ** [class ProxyConfig] and [class TCPProxy] *)

Record ProxyConfig : Type := mkProxyConfig {
  _singleProxyList : list attrs
}.

(** [getDict] belongs to p3lib: it hands back the stored list or raises. *)
Inductive getDict_result : Type :=
| Loaded (l : list attrs)
| LoadFails.

Definition getDict {O : Type} (r : getDict_result) : M O (list attrs) :=
  match r with
  | Loaded l => ret l
  | LoadFails => raise
  end.

(** [ProxyConfig.__init__] *)
Definition ProxyConfig_init {O : Type} (r : getDict_result) : M O ProxyConfig :=
  l <- try_except (getDict r) (ret []) ;;
  ret {| _singleProxyList := l |}.

Definition getProxyAttrList (self : ProxyConfig) : list attrs :=
  _singleProxyList self.

Record TCPProxy : Type := mkTCPProxy {
  _proxyConfig : ProxyConfig
}.

(** [TCPProxy.__init__] *)
Definition TCPProxy_init {O : Type} (r : getDict_result) : M O TCPProxy :=
  c <- ProxyConfig_init r ;;
  ret {| _proxyConfig := c |}.

Definition serve {O : Type} (self : TCPProxy) : M O unit :=
  let proxyAttrList := getProxyAttrList (_proxyConfig self) in
  for_each proxyAttrList (fun singleProxyAttr =>
    emit (Log Info ("Forwarding "
                    ++ endpoint (attr0 singleProxyAttr) (attr1 singleProxyAttr)
                    ++ " to "
                    ++ endpoint (attr2 singleProxyAttr) (attr3 singleProxyAttr))) ;;
    let tcpProxyServer := set singleProxyAttr backLog_default in
    emit (Start (run tcpProxyServer))).

(** The last branch of [main]: [tcpProxy = TCPProxy(uio, options)] and then
    [tcpProxy.serve()]. *)
Definition main_serve {O : Type} (r : getDict_result) : M O unit :=
  tcpProxy <- TCPProxy_init r ;;
  serve tcpProxy.

(** ** What is observed of a run *)

Open Scope list_scope.

(** The values [recv] returned, the values handed to [sendall], and the
    values whose [sendall] returned, each in the order of the trace. *)
Definition received (t : list event) : list pyobj :=
  flat_map (fun e => match e with
                     | Ret (sys_recv _ _) v => [v]
                     | _ => []
                     end) t.


Definition written (t : list event) : list pyobj :=
  flat_map (fun e => match e with
                     | Ret (sys_sendall _ d) _ => [d]
                     | _ => []
                     end) t.



(** The calls a relay from [source] to [destination] may make. *)
Definition relay_call (source destination : pyobj) (n : Z) (c : syscall) : Prop :=
  c = sys_recv source n \/ exists d, c = sys_sendall destination d.


(** No call has raised in [t]. *)
Definition no_exc (t : list event) : Prop := forall c, ~ In (Exc c) t.

(** No [accept] is begun in [t]. *)
Definition no_accept (t : list event) : Prop :=
  forall s, ~ In (Call (sys_accept s)) t.

(** No [accept] is begun after a [shutDown]. *)
Definition quiet (t : list event) : Prop :=
  forall t1 t2, t = t1 ++ ShutDownCalled :: t2 -> no_accept t2.

(** The addresses and ports a listener made from [srv] hands to [bind] and
    [connect]. *)
Definition uses (srv : TCPProxyServer) (e : event) : Prop :=
  match e with
  | Call (sys_bind _ a p) => a = _bindAddress srv /\ p = _listenPort srv
  | Call (sys_connect _ a p) => a = _destAddress srv /\ p = _destPort srv
  | _ => True
  end.

(** [s] is [srv] up to the running flag. *)
Definition same_config (s srv : TCPProxyServer) : Prop :=
  _attrList s = _attrList srv /\
  _bindAddress s = _bindAddress srv /\
  _listenPort s = _listenPort srv /\
  _destAddress s = _destAddress srv /\
  _destPort s = _destPort srv /\
  _backLog s = _backLog srv.

(** An address as the configuration holds it, and the address it stands
    for: [host/mask] stands for [host], an address without a slash for
    itself. *)
Inductive stands_for : string -> string -> Prop :=
| with_mask (host mask : string) :
    host <> EmptyString -> PyStr.mem "/" host = false ->
    stands_for (host ++ "/" ++ mask)%string host
| without_mask (addr : string) :
    PyStr.mem "/" addr = false -> stands_for addr addr.

(** ** A program logic for the monad *)

Definition hoare {O A : Type} (P : world O -> Prop) (m : M O A)
  (Q : outcome A -> world O -> Prop) : Prop :=
  forall w, P w -> Q (fst (m w)) (snd (m w)).

(** [m] keeps the invariant [J] of the object and the trace, whatever its
    outcome. *)
Definition lift {O : Type} (J : O -> list event -> Prop) (w : world O) : Prop :=
  J (self w) (trace w).

Definition keeps {O A : Type} (J : O -> list event -> Prop) (m : M O A) : Prop :=
  hoare (lift J) m (fun _ => lift J).

(** [m] never runs out of fuel and never adds a reply. *)
Definition settles {O A : Type} (m : M O A) : Prop :=
  forall w, fst (m w) <> OutOfFuel /\
            (List.length (pending (snd (m w))) <= List.length (pending w))%nat.

(** [m] settles and, when it returns, has taken a reply. *)
Definition consumes {O A : Type} (m : M O A) : Prop :=
  forall w, fst (m w) <> OutOfFuel /\
            (List.length (pending (snd (m w))) <= List.length (pending w))%nat /\
            (forall a, fst (m w) = Returned a ->
                       (List.length (pending (snd (m w))) < List.length (pending w))%nat).

(** The trace grew from [t0] without an exception. *)
Definition clean {O : Type} (t0 : list event) (w : world O) : Prop :=
  exists evs, trace w = t0 ++ evs /\ no_exc evs.

(** The trace grew from [t0], and an exception is in it exactly when it
    leaves the code, as the last event. *)
Definition exc_post {O A : Type} (t0 : list event) (o : outcome A)
  (w : world O) : Prop :=
  match o with
  | Raised => exists evs c, trace w = t0 ++ evs ++ [Exc c] /\ no_exc evs
  | _ => clean t0 w
  end.

Definition exc_safe {O A : Type} (m : M O A) : Prop :=
  forall t0, hoare (clean t0) m (exc_post t0).





(** Once a [shutDown] is in the trace the flag is false, and no [accept]
    was begun after it. *)
Definition stop_inv (o : TCPProxyServer) (t : list event) : Prop :=
  (In ShutDownCalled t -> _running o = false) /\ quiet t.

(** The listener is [srv] up to the flag and has handed the addresses and
    ports of [srv] to [bind] and [connect]. *)
Definition config_inv (srv o : TCPProxyServer) (t : list event) : Prop :=
  same_config o srv /\ Forall (uses srv) t.

(** The sockets on which an [accept] was begun in [t], in order. *)
Definition accept_calls (t : list event) : list pyobj :=
  flat_map (fun e => match e with
                     | Call (sys_accept s) => [s]
                     | _ => []
                     end) t.

(** The listeners started in [t], in the order of the trace. *)
Definition started (t : list event) : list TCPProxyServer :=
  flat_map (fun e => match e with
                     | Start (run srv) => [srv]
                     | _ => []
                     end) t.

(** What [serve] does for one route: the line it logs and the thread it
    starts. *)
Definition announce (a : attrs) : list event :=
  [Log Info ("Forwarding " ++ endpoint (attr0 a) (attr1 a)
             ++ " to " ++ endpoint (attr2 a) (attr3 a))%string;
   Start (run (set a backLog_default))].

(** The route of the scenario of the specification, and a route whose bind
    address has a mask. *)
Definition route_9000 : attrs := mkAttrs "0.0.0.0" 9000 "127.0.0.1" 9001.

Definition route_masked : attrs :=
  mkAttrs "192.168.1.5/24" 9000 "10.0.0.1" 9001.

(** A first client whose destination refuses the connection, while a second
    client is already waiting to be accepted. *)
Definition refused_then_waiting : list reply :=
  [Returns (PySocket 3);     (* socket() *)
   Returns PyNone;           (* setsockopt *)
   Returns PyNone;           (* bind *)
   Returns PyNone;           (* listen *)
   Returns (PySocket 4);     (* accept: the first client *)
   Returns (PySocket 5);     (* socket() *)
   Raises;                   (* connect: refused *)
   Returns (PySocket 6);     (* accept: the second client *)
   Returns (PySocket 7);     (* socket() *)
   Returns PyNone].          (* connect *)

(** The address is in use at first; a second attempt would succeed. *)
Definition bind_fails_once : list reply :=
  [Returns (PySocket 3);     (* socket() *)
   Returns PyNone;           (* setsockopt *)
   Raises;                   (* bind: address in use *)
   Returns (PySocket 4);     (* socket() *)
   Returns PyNone;           (* setsockopt *)
   Returns PyNone;           (* bind *)
   Returns PyNone].          (* listen *)

(** [accept] raises once; a second attempt would succeed. *)
Definition accept_fails_once : list reply :=
  [Returns (PySocket 3);     (* socket() *)
   Returns PyNone;           (* setsockopt *)
   Returns PyNone;           (* bind *)
   Returns PyNone;           (* listen *)
   Raises;                   (* accept *)
   Returns (PySocket 4);     (* socket() *)
   Returns PyNone;           (* setsockopt *)
   Returns PyNone;           (* bind *)
   Returns PyNone].          (* listen *)

(** The listener of [route_9000] once [serveConnection] has set its flag. *)
Definition listener_9000 : TCPProxyServer :=
  mkServer route_9000 "0.0.0.0" 9000 "127.0.0.1" 9001 true 5.

(** [b"ping"] *)
Definition ping : pyobj :=
  PyBytes [Byte.x70; Byte.x69; Byte.x6e; Byte.x67].

(** The last line a listener logs. *)
Definition shutdown_line (o : TCPProxyServer) : event :=
  Log Debug ("Shutdown server listening on "
             ++ endpoint (_bindAddress o) (_listenPort o))%string.

(** ** Further observations of a listener's run *)

(** The sockets [accept] returned, the sockets on which a [connect]
    returned, and the relays started, as (source, destination), each in the
    order of the trace. *)
Definition accepted (t : list event) : list pyobj :=
  flat_map (fun e => match e with
                     | Ret (sys_accept _) v => [v]
                     | _ => []
                     end) t.

Definition connected (t : list event) : list pyobj :=
  flat_map (fun e => match e with
                     | Ret (sys_connect s _ _) _ => [s]
                     | _ => []
                     end) t.

Definition relays (t : list event) : list (pyobj * pyobj) :=
  flat_map (fun e => match e with
                     | Start (forward_of a b) => [(a, b)]
                     | _ => []
                     end) t.

(** The two relays of a connection: client to server, server to client. *)
Definition both_ways (c : pyobj * pyobj) : list (pyobj * pyobj) :=
  [(fst c, snd c); (snd c, fst c)].

(** The [bind] and [listen] calls begun in [t]. *)
Definition bind_calls (t : list event) : list syscall :=
  flat_map (fun e => match e with
                     | Call (sys_bind s a p) => [sys_bind s a p]
                     | _ => []
                     end) t.

Definition listen_calls (t : list event) : list syscall :=
  flat_map (fun e => match e with
                     | Call (sys_listen s b) => [sys_listen s b]
                     | _ => []
                     end) t.

Definition is_recv_call (e : event) : Prop :=
  match e with
  | Call (sys_recv _ _) => True
  | _ => False
  end.

(** No event of the kind [bad] comes after a [shutDown]. *)
Definition silent (bad : event -> Prop) (t : list event) : Prop :=
  forall t1 t2, t = t1 ++ ShutDownCalled :: t2 ->
                forall e, In e t2 -> ~ bad e.

(** Once a [shutDown] is in the trace the flag is false, and no [recv] was
    begun after it. *)
Definition relay_stop_inv (o : TCPProxyServer) (t : list event) : Prop :=
  (In ShutDownCalled t -> _running o = false) /\ silent is_recv_call t.

(** Between two connections: every socket accepted has its connected
    server socket, and the relays started are the two of each pair. *)
Definition paired (t : list event) : Prop :=
  List.length (accepted t) = List.length (connected t) /\
  relays t = flat_map both_ways (combine (accepted t) (connected t)).

(** The same at any moment: the last socket accepted may still be without
    its server socket. *)
Definition paired_or_pending (t : list event) : Prop :=
  (List.length (accepted t) = List.length (connected t) \/
   List.length (accepted t) = S (List.length (connected t))) /\
  relays t = flat_map both_ways (combine (accepted t) (connected t)).

(** [client] is accepted and not yet connected. *)
Definition pending_client (client : pyobj) (t : list event) : Prop :=
  exists a,
    accepted t = a ++ [client] /\
    List.length a = List.length (connected t) /\
    relays t = flat_map both_ways (combine a (connected t)).

(** An event that is no return of [accept], no return of [connect] and no
    start of a relay. *)
Definition neutral (e : event) : Prop :=
  accepted [e] = [] /\ connected [e] = [] /\ relays [e] = [].

(** [client] is accepted, [server] connected for it, and of its two relays
    those of [begun] are started. *)
Definition connecting (client server : pyobj) (begun : list (pyobj * pyobj))
  (t : list event) : Prop :=
  exists a c,
    accepted t = a ++ [client] /\
    connected t = c ++ [server] /\
    List.length a = List.length c /\
    relays t = flat_map both_ways (combine a c) ++ begun.

(** What a turn of the accept loop leaves: every connection paired when it
    returns, the last one possibly pending when it does not. *)
Definition conn_post (o : outcome unit) (w : world TCPProxyServer) : Prop :=
  match o with
  | Returned _ => paired (trace w)
  | _ => paired_or_pending (trace w)
  end.

(** At most [b] calls of [bind] and [l] calls of [listen] were begun. *)
Definition at_most (b l : nat) (t : list event) : Prop :=
  (List.length (bind_calls t) <= b)%nat /\
  (List.length (listen_calls t) <= l)%nat.

(** An event that begins neither a [bind] nor a [listen]. *)
Definition no_setup (e : event) : Prop :=
  bind_calls [e] = [] /\ listen_calls [e] = [].

(** ** The configuration editor: the rest of [class ProxyConfig] *)

(** Text as the editor handles it; a character is a code point below 256. *)
Module PyText.

(** [c.isspace()] *)
Definition is_space (c : ascii) : bool :=
  let n := nat_of_ascii c in
  ((9 <=? n) && (n <=? 13) || (28 <=? n) && (n <=? 32)
   || (n =? 133) || (n =? 160))%nat.

(** [c.lower()] *)
Definition lower_char (c : ascii) : ascii :=
  let n := nat_of_ascii c in
  if ((65 <=? n) && (n <=? 90)
      || (192 <=? n) && (n <=? 222) && negb (n =? 215))%nat
  then ascii_of_nat (n + 32) else c.

(** [s.lower()] *)
Fixpoint lower (s : string) : string :=
  match s with
  | EmptyString => EmptyString
  | String c s' => String (lower_char c) (lower s')
  end.

(** A word that is not empty is put before the words that follow. *)
Definition cons_word (w : string) (ws : list string) : list string :=
  match w with
  | EmptyString => ws
  | _ => w :: ws
  end.

(** The word that begins [s], possibly empty, and the words after it. *)
Fixpoint words_aux (s : string) : string * list string :=
  match s with
  | EmptyString => (EmptyString, [])
  | String c s' =>
      let (w, ws) := words_aux s' in
      if is_space c then (EmptyString, cons_word w ws)
      else (String c w, ws)
  end.

(** [s.split()]: the words of [s], separated by runs of white space. *)
Definition words (s : string) : list string :=
  let (w, ws) := words_aux s in cons_word w ws.

(** [s.lstrip()], [s.rstrip()] and [s.strip()] *)
Fixpoint lstrip (s : string) : string :=
  match s with
  | EmptyString => EmptyString
  | String c s' => if is_space c then lstrip s' else s
  end.

Fixpoint rstrip (s : string) : string :=
  match s with
  | EmptyString => EmptyString
  | String c s' =>
      match rstrip s' with
      | EmptyString => if is_space c then EmptyString else String c EmptyString
      | r => String c r
      end
  end.

Definition strip (s : string) : string := rstrip (lstrip s).

(** ["{}".format(v)] for a string or [None]. *)
Definition of_opt (v : option string) : string :=
  match v with
  | Some s => s
  | None => "None"
  end.

(** [c * n] for a one-character string [c]. *)
Fixpoint times (c : ascii) (n : nat) : string :=
  match n with
  | O => EmptyString
  | S n' => String c (times c n')
  end.

(** ["{: <w}".format(s)] for a string [s]: [s], then spaces up to [w]. *)
Definition ljust (w : nat) (s : string) : string :=
  (s ++ times " " (w - String.length s))%string.

(** [x in l] for a list of strings. *)
Definition mem_str (x : string) (l : list string) : bool :=
  existsb (String.eqb x) l.

End PyText.

Module Config.
Local Open Scope string_scope.

(** One entry of [_singleProxyList] as the editor makes it: entry 0 is
    [None] when the prompt for the bind address was left with [q]. *)
Record row : Type := mkRow {
  row0 : option string;   (* the bind address *)
  row1 : Z;               (* the port to listen on *)
  row2 : string;          (* the destination address *)
  row3 : Z                (* the destination port *)
}.

(** How a process started by [Popen] ends. *)
Inductive proc_result : Type :=
| Exited (returncode : Z) (out err : string)
| SpawnFails.

(** The object and what is around it: the list it edits; the lines and the
    numbers the user will enter, and the processes as they will end, each in
    order; whether debugging is on and whether the file can be written; the
    prompts shown, the commands run and the lists written so far. *)
Record console : Type := mkConsole {
  rows : list row;               (* self._singleProxyList *)
  typed : list string;           (* what uio.getInput will return *)
  numbers : list Z;              (* what uio.getIntInput will return *)
  procs : list proc_result;      (* what the processes started will do *)
  debug_on : bool;               (* uio.isDebugEnabled() *)
  writable : bool;               (* whether saveDict can write the file *)
  asked : list string;           (* the prompts shown *)
  ran : list (list string);      (* the commands started *)
  saved : list (list row)        (* the lists saveDict wrote *)
}.

Definition E : Type -> Type := M console.

Definition BIND_ALL_ADDRESS : string := "0.0.0.0/32".

(** *** The collaborators: [UIO], [Popen], [saveDict] *)

(** [uio.getInput(prompt)]: the prompt is shown, the next line typed is
    returned; the call waits for ever when nothing more is typed. *)
Definition getInput (prompt : string) : E string :=
  fun w =>
    let c := self w in
    match typed c with
    | [] =>
        (Blocked,
         mkWorld (mkConsole (rows c) [] (numbers c) (procs c) (debug_on c)
                    (writable c) (asked c ++ [prompt])%list (ran c) (saved c))
           (pending w) (trace w))
    | line :: rest =>
        (Returned line,
         mkWorld (mkConsole (rows c) rest (numbers c) (procs c) (debug_on c)
                    (writable c) (asked c ++ [prompt])%list (ran c) (saved c))
           (pending w) (trace w))
    end.

(** [uio.getIntInput(prompt)] *)
Definition getIntInput (prompt : string) : E Z :=
  fun w =>
    let c := self w in
    match numbers c with
    | [] =>
        (Blocked,
         mkWorld (mkConsole (rows c) (typed c) [] (procs c) (debug_on c)
                    (writable c) (asked c ++ [prompt])%list (ran c) (saved c))
           (pending w) (trace w))
    | n :: rest =>
        (Returned n,
         mkWorld (mkConsole (rows c) (typed c) rest (procs c) (debug_on c)
                    (writable c) (asked c ++ [prompt])%list (ran c) (saved c))
           (pending w) (trace w))
    end.

(** [proc = Popen(cmd, ...); out, err = proc.communicate()] *)
Definition Popen_communicate (cmd : list string) : E (Z * string * string) :=
  fun w =>
    let c := self w in
    let after rest :=
      mkWorld (mkConsole (rows c) (typed c) (numbers c) rest (debug_on c)
                 (writable c) (asked c) (ran c ++ [cmd])%list (saved c))
        (pending w) (trace w) in
    match procs c with
    | [] => (Blocked, after [])
    | Exited rc out err :: rest => (Returned (rc, out, err), after rest)
    | SpawnFails :: rest => (Raised, after rest)
    end.

(** [saveDict(l, CONFIG_FILE, jsonFmt=True)] *)
Definition saveDict (l : list row) : E unit :=
  fun w =>
    let c := self w in
    if writable c then
      (Returned tt,
       mkWorld (mkConsole (rows c) (typed c) (numbers c) (procs c)
                  (debug_on c) (writable c) (asked c) (ran c)
                  (saved c ++ [l])%list)
         (pending w) (trace w))
    else (Raised, w).

(** [self._singleProxyList] read and assigned. *)
Definition get_rows : E (list row) := fun w => (Returned (rows (self w)), w).

Definition put_rows (l : list row) : E unit :=
  fun w =>
    let c := self w in
    (Returned tt,
     mkWorld (mkConsole l (typed c) (numbers c) (procs c) (debug_on c)
                (writable c) (asked c) (ran c) (saved c))
       (pending w) (trace w)).

Definition _debug (msg : string) : E unit := emit (Log Debug msg).
Definition _info (msg : string) : E unit := emit (Log Info msg).
Definition _error (msg : string) : E unit := emit (Log Error msg).

Definition _isDebugEnabled : E bool :=
  fun w => (Returned (debug_on (self w)), w).

(** [while True: body], where [body] yields [Some a] to leave the loop with
    [a] and [None] to go round again; unrolled at most [fuel] times. *)
Fixpoint loop_fuel {A : Type} (fuel : nat) (body : E (option A)) : E A :=
  match fuel with
  | O => fun w => (OutOfFuel, w)
  | S n =>
      r <- body ;;
      match r with
      | Some a => ret a
      | None => loop_fuel n body
      end
  end.

(** Every turn of the loops of the editor reads a line, so one turn more
    than there are lines is enough. *)
Definition while_True {A : Type} (body : E (option A)) : E A :=
  fun w => loop_fuel (S (List.length (typed (self w)))) body w.

(** *** List operations *)

(** [del l[i]]: [None] stands for [IndexError]. *)
Fixpoint del_item {X : Type} (i : nat) (l : list X) : option (list X) :=
  match l, i with
  | [], _ => None
  | _ :: l', O => Some l'
  | x :: l', S i' =>
      match del_item i' l' with
      | Some r => Some (x :: r)
      | None => None
      end
  end.

(** [l[i] = v]: [None] stands for [IndexError]. *)
Fixpoint set_item {X : Type} (i : nat) (v : X) (l : list X)
  : option (list X) :=
  match l, i with
  | [], _ => None
  | _ :: l', O => Some (v :: l')
  | x :: l', S i' =>
      match set_item i' v l' with
      | Some r => Some (x :: r)
      | None => None
      end
  end.

(** [id > 0 and id <= len(l)] *)
Definition valid_id {X : Type} (id : Z) (l : list X) : bool :=
  ((id >? 0) && (id <=? Z.of_nat (List.length l)))%Z.

(** *** [runCmd] and [_getNetAddrList] *)

Definition newline : ascii := "010"%char.

(** [runCmd(cmd)] for a command given as a string. *)
Definition runCmd (cmd : string) : E (Z * list string * list string) :=
  _debug ("cmd: " ++ cmd) ;;
  let cmd := PyText.words cmd in
  r <- Popen_communicate cmd ;;
  let '(returncode, out, err) := r in
  let stdOutLines := PyStr.split newline out in
  let stdErrLines := PyStr.split newline err in
  dbg <- _isDebugEnabled ;;
  (if dbg then
     for_each stdOutLines (fun l => _debug ("stdout: " ++ l)) ;;
     for_each stdErrLines (fun l => _debug ("stderr: " ++ l))
   else ret tt) ;;
  ret (returncode, stdOutLines, stdErrLines).

(** One turn of the loop over the lines of [ip a]. *)
Definition add_interface (interfaceList : list string) (line : string)
  : list string :=
  let line := PyText.strip line in
  let elems := PyText.words line in
  match elems with
  | e0 :: rest =>
      if String.eqb e0 "inet" then
        match rest with
        | e1 :: _ => (interfaceList ++ [e1])%list
        | [] => interfaceList
        end
      else interfaceList
  | [] => interfaceList
  end.

Definition _getNetAddrList : E (list string) :=
  let cmd := "/sbin/ip a" in
  r <- runCmd cmd ;;
  let '(rc, lines, _) := r in
  if (rc =? 0)%Z then
    let interfaceList := fold_left add_interface lines [] in
    ret (interfaceList ++ [BIND_ALL_ADDRESS])%list
  else raise.

(** *** [_showProxyDict] *)

(** A value given to [format]. *)
Inductive field : Type :=
| FStr (s : string)
| FInt (n : Z)
| FNone.

(** ["{: <w}".format(v)]: a string or an integer is padded on the right up
    to the width; [None] does not take a format and raises [TypeError]. *)
Definition pad (w : nat) (v : field) : option string :=
  match v with
  | FStr s => Some (PyText.ljust w s)
  | FInt n => Some (PyText.ljust w (PyStr.of_int n))
  | FNone => None
  end.

Definition field_of (a : option string) : field :=
  match a with
  | Some s => FStr s
  | None => FNone
  end.

(** ["| {: <3} | {: <12} | {: <11} | {: <19} | {: <16} " + last] *)
Definition table_line (last : string) (f0 f1 f2 f3 f4 : field)
  : option string :=
  match pad 3 f0, pad 12 f1, pad 11 f2, pad 19 f3, pad 16 f4 with
  | Some c0, Some c1, Some c2, Some c3, Some c4 =>
      Some ("| " ++ c0 ++ " | " ++ c1 ++ " | " ++ c2 ++ " | " ++ c3
            ++ " | " ++ c4 ++ " " ++ last)
  | _, _, _, _, _ => None
  end.

Definition row_line (id : Z) (attrList : row) : option string :=
  table_line "!" (FInt id) (field_of (row0 attrList)) (FInt (row1 attrList))
    (FStr (row2 attrList)) (FInt (row3 attrList)).

(** The loop over the rows, with its counter [id]. *)
Fixpoint show_rows (id : Z) (l : list row) : E unit :=
  match l with
  | [] => ret tt
  | attrList :: l' =>
      match row_line id attrList with
      | Some rowLine => _info rowLine ;; show_rows (id + 1) l'
      | None => raise
      end
  end.

Definition titleHeaderLine : option string :=
  table_line "|" (FStr "ID") (FStr "Bind Address") (FStr "Listen Port")
    (FStr "Destination Address") (FStr "Destination Port").

Definition _showProxyDict : E unit :=
  match titleHeaderLine with
  | Some title =>
      let horSepLine := PyText.times "*" (String.length title) in
      _info horSepLine ;;
      _info title ;;
      _info horSepLine ;;
      l <- get_rows ;;
      show_rows 1 l ;;
      _info horSepLine
  | None => raise
  end.

(** *** The prompts *)

Definition _getAddress (prompt : string) (defaultAddress : option string)
  : E (option string) :=
  response <- getInput prompt ;;
  let response := PyText.lower response in
  if String.eqb response "q" then ret None
  else if (String.length response =? 0)%nat then ret defaultAddress
  else ret (Some response).

Definition _getLocalBindAddress (defaultAddress : option string)
  : E (option string) :=
  while_True
    (netAddrList <- _getNetAddrList ;;
     _info "Local network interface address list" ;;
     for_each netAddrList (fun netAddr => _info netAddr) ;;
     _info ("Press enter to set the local bind address to "
            ++ PyText.of_opt defaultAddress) ;;
     response <-
       _getAddress
         "Enter the local network interface address to bind to from the above list or 'q' to quit."
         defaultAddress ;;
     match response with
     | None => ret (Some None)
     | Some r =>
         if PyText.mem_str r netAddrList then ret (Some (Some r))
         else
           _error (r ++ " is not a local interface address.") ;;
           ret None
     end).

Section WithInt.
(** [int(s)] for a string: the integer read, or [None] for [ValueError]. *)
Variable py_int : string -> option Z.

Definition _getPort (prompt : string) (defaultPort : option Z) : E Z :=
  while_True
    (response <- getInput prompt ;;
     match defaultPort with
     | Some port =>
         if (String.length response =? 0)%nat then ret (Some port)
         else
           match py_int response with
           | Some port => ret (Some port)
           | None =>
               _error (response ++ " is an invalid port (1-65535 are valid).") ;;
               ret None
           end
     | None =>
         match py_int response with
         | Some port => ret (Some port)
         | None =>
             _error (response ++ " is an invalid port (1-65535 are valid).") ;;
             ret None
         end
     end).

Definition _addProxy : E unit :=
  localBindAddress <- _getLocalBindAddress (Some BIND_ALL_ADDRESS) ;;
  listenPort <- _getPort "Enter the local listen port" None ;;
  destAddr <- getInput "Enter the destination address" ;;
  destPort <- _getPort "Enter the destination port" None ;;
  let attrList := mkRow localBindAddress listenPort destAddr destPort in
  l <- get_rows ;;
  put_rows (l ++ [attrList])%list.

Definition _editProxy : E unit :=
  id <- getIntInput "Enter the ID of the row to edit" ;;
  l <- get_rows ;;
  if valid_id id l then
    match nth_error l (Z.to_nat (id - 1)) with
    | None => raise
    | Some attrList =>
        let bindAddress := row0 attrList in
        let listenPort := row1 attrList in
        let destAddress := row2 attrList in
        let destPort := row3 attrList in
        bindAddress <- _getLocalBindAddress bindAddress ;;
        listenPort <-
          _getPort ("Enter the local listen port (Enter="
                    ++ PyStr.of_int listenPort ++ ")") (Some listenPort) ;;
        _getAddress ("Enter the destination address (Enter="
                     ++ destAddress ++ ")") (Some destAddress) ;;
        destPort <-
          _getPort ("Enter the destination port (Enter="
                    ++ PyStr.of_int destPort ++ ")") (Some destPort) ;;
        l <- get_rows ;;
        match set_item (Z.to_nat (id - 1))
                (mkRow bindAddress listenPort destAddress destPort) l with
        | Some l' => put_rows l'
        | None => raise
        end
    end
  else ret tt.

Definition _deleteProxy : E unit :=
  id <- getIntInput "Enter the ID of the row to delete" ;;
  l <- get_rows ;;
  if valid_id id l then
    match del_item (Z.to_nat (id - 1)) l with
    | Some l' =>
        put_rows l' ;;
        _info ("Removed row " ++ PyStr.of_int id)
    | None => raise
    end
  else ret tt.

Definition _save : E unit :=
  l <- get_rows ;;
  saveDict l ;;
  _info "Saved configuration.".

Definition config : E unit :=
  while_True
    (_showProxyDict ;;
     response <-
       getInput "A: Add, E: Edit, D: Delete, S: Save or Q: to quit." ;;
     let response := PyText.lower response in
     if String.eqb response "a" then _addProxy ;; ret None
     else if String.eqb response "e" then _editProxy ;; ret None
     else if String.eqb response "d" then _deleteProxy ;; ret None
     else if String.eqb response "s" then _save ;; ret None
     else if String.eqb response "q" then ret (Some tt)
     else ret None).

End WithInt.

(** *** What is observed of the editor *)

(** The address of a line of [ip a] that begins with the word [inet]. *)
Definition inet_address (line : string) : list string :=
  match PyText.words line with
  | e0 :: e1 :: _ => if String.eqb e0 "inet" then [e1] else []
  | _ => []
  end.

Definition inet_addresses (lines : list string) : list string :=
  flat_map inet_address lines.


(** What [runCmd] logs at debug level. *)
Definition runCmd_log (cmd : string) (dbg : bool) (out err : string)
  : list event :=
  (Log Debug ("cmd: " ++ cmd)
   :: (if dbg then
         map (fun l => Log Debug ("stdout: " ++ l)) (PyStr.split newline out)
         ++ map (fun l => Log Debug ("stderr: " ++ l))
              (PyStr.split newline err)
       else []))%list.

(** The state once the line typed next has answered the prompt. *)
Definition answered (prompt : string) (w : world console) : world console :=
  let c := self w in
  mkWorld (mkConsole (rows c) (tl (typed c)) (numbers c) (procs c)
             (debug_on c) (writable c) (asked c ++ [prompt])%list (ran c)
             (saved c))
    (pending w) (trace w).

(** The state once the next number entered has answered the prompt. *)
Definition numbered (prompt : string) (w : world console) : world console :=
  let c := self w in
  mkWorld (mkConsole (rows c) (typed c) (tl (numbers c)) (procs c)
             (debug_on c) (writable c) (asked c ++ [prompt])%list (ran c)
             (saved c))
    (pending w) (trace w).

(** The state once the command has run. *)
Definition after_run (cmd : list string) (w : world console) : world console :=
  let c := self w in
  mkWorld (mkConsole (rows c) (typed c) (numbers c) (tl (procs c))
             (debug_on c) (writable c) (asked c) (ran c ++ [cmd])%list
             (saved c))
    (pending w) (trace w).

(** The state with more logged. *)
Definition logged (evs : list event) (w : world console) : world console :=
  mkWorld (self w) (pending w) (trace w ++ evs)%list.

(** The state with another list. *)
Definition with_rows (l : list row) (w : world console) : world console :=
  let c := self w in
  mkWorld (mkConsole l (typed c) (numbers c) (procs c) (debug_on c)
             (writable c) (asked c) (ran c) (saved c))
    (pending w) (trace w).



Definition title : string :=
  "| ID  | Bind Address | Listen Port | Destination Address | Destination Port |".

(** The messages logged at info level, in order. *)
Definition info_lines (t : list event) : list string :=
  flat_map (fun e => match e with
                     | Log Info msg => [msg]
                     | _ => []
                     end) t.

(** [m] never runs out of fuel and types nothing for the user. *)
Definition steady {A : Type} (m : E A) : Prop :=
  forall w, fst (m w) <> OutOfFuel /\
            (List.length (typed (self (snd (m w))))
             <= List.length (typed (self w)))%nat.

(** [m] is steady and has read a line when it returns. *)
Definition reads {A : Type} (m : E A) : Prop :=
  forall w, fst (m w) <> OutOfFuel /\
            (List.length (typed (self (snd (m w))))
             <= List.length (typed (self w)))%nat /\
            (forall a, fst (m w) = Returned a ->
                       (List.length (typed (self (snd (m w))))
                        < List.length (typed (self w)))%nat).

(** The console went on: lines, numbers and processes were used up from
    the front; the list, the file and the settings are as they were. *)
Definition advance (c c' : console) : Prop :=
  rows c' = rows c /\ saved c' = saved c /\
  writable c' = writable c /\ debug_on c' = debug_on c /\
  (exists n, typed c' = skipn n (typed c)) /\
  (exists n, numbers c' = skipn n (numbers c)) /\
  (exists n, procs c' = skipn n (procs c)).

(** A property of the console that going on keeps. *)
Definition respects (K : console -> Prop) : Prop :=
  forall c c', advance c c' -> K c -> K c'.

(** A property of the console that does not look at the list. *)
Definition rows_free (K : console -> Prop) : Prop :=
  forall c l,
    K c ->
    K (mkConsole l (typed c) (numbers c) (procs c) (debug_on c) (writable c)
         (asked c) (ran c) (saved c)).

(** [l'] is [l] with at most the row numbered [target] replaced, by a row
    with the same destination address. *)
Definition edited (l : list row) (target : option Z) (l' : list row) : Prop :=
  List.length l' = List.length l /\
  map row2 l' = map row2 l /\
  forall j,
    match target with
    | Some id => Z.of_nat j <> (id - 1)%Z
    | None => True
    end ->
    nth_error l' j = nth_error l j.

(** A property of the console as an invariant of the object and the
    trace. *)
Definition holds (K : console -> Prop) (c : console) (_ : list event)
  : Prop := K c.

(** A reader of plain decimal numerals, with or without a minus sign;
    [int] reads these the same way. *)
Definition plain_int (s : string) : option Z :=
  match NilZero.int_of_string s with
  | Some d => Some (Z.of_int d)
  | None => None
  end.

End Config.

(** ** [find], [split] and [set] *)

Lemma split_not_nil (c : ascii) (s : string) : PyStr.split c s <> [].
Proof.
  induction s as [|a s IH]; simpl; [discriminate|].
  destruct (Ascii.eqb a c); [discriminate|].
  destruct (PyStr.split c s); discriminate.
Qed.

Lemma find_from_absent (c : ascii) (s : string) :
  PyStr.mem c s = false -> forall i, PyStr.find_from c s i = -1.
Proof.
  induction s as [|a s IH]; simpl; intros Hm i; [reflexivity|].
  apply orb_false_iff in Hm as [Ha Hs].
  rewrite Ha. now apply IH.
Qed.

Lemma find_from_first (c : ascii) (host rest : string) :
  PyStr.mem c host = false ->
  forall i, PyStr.find_from c (host ++ String c rest)%string i
            = i + Z.of_nat (String.length host).
Proof.
  induction host as [|a host IH]; simpl; intros Hm i.
  - rewrite Ascii.eqb_refl. lia.
  - apply orb_false_iff in Hm as [Ha Hs].
    rewrite Ha, IH by assumption. lia.
Qed.

Lemma split_first (c : ascii) (host rest : string) :
  PyStr.mem c host = false ->
  PyStr.split c (host ++ String c rest)%string = host :: PyStr.split c rest.
Proof.
  induction host as [|a host IH]; simpl; intros Hm.
  - now rewrite Ascii.eqb_refl.
  - apply orb_false_iff in Hm as [Ha Hs].
    now rewrite Ha, IH.
Qed.

Lemma strip_mask_stands_for (addr host : string) :
  stands_for addr host -> strip_mask addr = host.
Proof.
  intros [h mask Hne Hm | a Hm]; unfold strip_mask, PyStr.find.
  - change (h ++ "/" ++ mask)%string with (h ++ String "/" mask)%string.
    rewrite find_from_first, split_first by assumption.
    destruct h as [|x h]; [congruence|].
    replace (0 + Z.of_nat (String.length (String x h)) >? 0) with true;
      [reflexivity|].
    symmetry. apply Z.gtb_lt. simpl String.length. lia.
  - now rewrite find_from_absent.
Qed.

(** A slash in first place is no mask: [find] gives 0 and [set] leaves the
    string as it is. *)
Lemma strip_mask_leading_slash (rest : string) :
  strip_mask (String "/" rest) = String "/" rest.
Proof. reflexivity. Qed.

Lemma same_config_refl (s : TCPProxyServer) : same_config s s.
Proof. repeat split. Qed.

(** ** Rules of the program logic *)

Section Rules.
Context {O : Type}.

Lemma hoare_conseq {A : Type} (P P' : world O -> Prop) (m : M O A)
  (Q Q' : outcome A -> world O -> Prop) :
  (forall w, P' w -> P w) -> (forall o w, Q o w -> Q' o w) ->
  hoare P m Q -> hoare P' m Q'.
Proof. intros HP HQ H w Hw. apply HQ, H, HP, Hw. Qed.

Lemma hoare_ret {A : Type} (P : world O -> Prop) (a : A)
  (Q : outcome A -> world O -> Prop) :
  (forall w, P w -> Q (Returned a) w) -> hoare P (ret a) Q.
Proof. intros H w Hw. now apply H. Qed.

Lemma hoare_bind {A B : Type} (P : world O -> Prop) (m : M O A)
  (k : A -> M O B) (Q1 : outcome A -> world O -> Prop)
  (Q2 : outcome B -> world O -> Prop) :
  hoare P m Q1 ->
  (forall a, hoare (Q1 (Returned a)) (k a) Q2) ->
  (forall w, Q1 Raised w -> Q2 Raised w) ->
  (forall w, Q1 Blocked w -> Q2 Blocked w) ->
  (forall w, Q1 OutOfFuel w -> Q2 OutOfFuel w) ->
  hoare P (mbind m k) Q2.
Proof.
  intros Hm Hk Hr Hb Hf w Hw. specialize (Hm w Hw).
  unfold mbind. destruct (m w) as [[a| | |] w']; simpl in *; auto.
  now apply Hk.
Qed.

Lemma hoare_emit (P : world O -> Prop) (e : event)
  (Q : outcome unit -> world O -> Prop) :
  (forall w, P w -> Q (Returned tt) (mkWorld (self w) (pending w) (trace w ++ [e]))) ->
  hoare P (emit e) Q.
Proof. intros H w Hw. now apply H. Qed.

Lemma hoare_try_except {A : Type} (P : world O -> Prop) (body handler : M O A)
  (Q1 Q2 : outcome A -> world O -> Prop) :
  hoare P body Q1 ->
  hoare (Q1 Raised) handler Q2 ->
  (forall a w, Q1 (Returned a) w -> Q2 (Returned a) w) ->
  (forall w, Q1 Blocked w -> Q2 Blocked w) ->
  (forall w, Q1 OutOfFuel w -> Q2 OutOfFuel w) ->
  hoare P (try_except body handler) Q2.
Proof.
  intros Hb Hh Hr Hbl Hf w Hw. specialize (Hb w Hw).
  unfold try_except. destruct (body w) as [[a| | |] w']; simpl in *; auto.
Qed.

(** A call: [K] holds while the call waits. *)
Lemma hoare_call `{Stoppable O} (c : syscall)
  (K : O -> list reply -> list event -> Prop) (P : world O -> Prop)
  (Q : outcome pyobj -> world O -> Prop) :
  (forall w, P w -> K (self w) (pending w) (trace w ++ [Call c])) ->
  (forall o p t, K o (Stop :: p) t -> K (on_stop o) p (t ++ [ShutDownCalled])) ->
  (forall o p t v, K o (Returns v :: p) t ->
                   Q (Returned v) (mkWorld o p (t ++ [Ret c v]))) ->
  (forall o p t, K o (Raises :: p) t -> Q Raised (mkWorld o p (t ++ [Exc c]))) ->
  (forall o t, K o [] t -> Q Blocked (mkWorld o [] t)) ->
  hoare P (call c) Q.
Proof.
  intros Hc Hs Hr He Hb w Hw. unfold call.
  specialize (Hc w Hw). revert Hc.
  generalize (trace w ++ [Call c]) as t. generalize (self w) as o.
  induction (pending w) as [|r p IH]; intros o t HK; simpl.
  - now apply Hb.
  - destruct r as [v| |]; simpl.
    + now apply Hr.
    + now apply He.
    + apply IH. now apply Hs.
Qed.

(** *** Invariants of the object and the trace *)

Section Keeps.
Variable J : O -> list event -> Prop.

Lemma keeps_ret {A : Type} (a : A) : keeps J (ret a).
Proof. intros w Hw. exact Hw. Qed.

Lemma keeps_bind {A B : Type} (m : M O A) (k : A -> M O B) :
  keeps J m -> (forall a, keeps J (k a)) -> keeps J (mbind m k).
Proof.
  intros Hm Hk. eapply hoare_bind; [exact Hm|exact Hk|..]; auto.
Qed.

Lemma keeps_emit (e : event) :
  (forall o t, J o t -> J o (t ++ [e])) -> keeps J (emit e).
Proof. intros H w Hw. now apply H. Qed.

Lemma keeps_try_except {A : Type} (body handler : M O A) :
  keeps J body -> keeps J handler -> keeps J (try_except body handler).
Proof.
  intros Hb Hh. eapply hoare_try_except; [exact Hb|exact Hh|..]; auto.
Qed.

Lemma keeps_try_finally {A : Type} (body : M O A) (fin : M O unit) :
  keeps J body -> keeps J fin -> keeps J (try_finally body fin).
Proof.
  intros Hb Hf w Hw. specialize (Hb w Hw). unfold try_finally.
  destruct (body w) as [[a| | |] w']; simpl in *; auto;
    specialize (Hf w' Hb); destruct (fin w') as [o w'']; exact Hf.
Qed.

Lemma keeps_for_each {X : Type} (l : list X) (body : X -> M O unit) :
  (forall x, keeps J (body x)) -> keeps J (for_each l body).
Proof.
  intros Hb. induction l as [|x l IH]; simpl.
  - apply keeps_ret.
  - apply keeps_bind; auto.
Qed.

(** A call keeps [J] when recording the call, a [Stop], a return and an
    exception each keep it. *)
Lemma hoare_call_keeps `{Stoppable O} (c : syscall) (P : world O -> Prop) :
  (forall w, P w -> J (self w) (trace w ++ [Call c])) ->
  (forall o t, J o t -> J (on_stop o) (t ++ [ShutDownCalled])) ->
  (forall o t v, J o t -> J o (t ++ [Ret c v])) ->
  (forall o t, J o t -> J o (t ++ [Exc c])) ->
  hoare P (call c) (fun _ => lift J).
Proof.
  intros Hc Hs Hr He.
  apply hoare_call with (K := fun o _ t => J o t); unfold lift; simpl; auto.
Qed.

End Keeps.
End Rules.

(** *** Rules for the listener object *)

Lemma hoare_with_self {A : Type} (P : world TCPProxyServer -> Prop)
  (k : TCPProxyServer -> M TCPProxyServer A)
  (Q : outcome A -> world TCPProxyServer -> Prop) :
  (forall s, hoare (fun w => P w /\ self w = s) (k s) Q) ->
  hoare P (with_self k) Q.
Proof. intros H w Hw. unfold with_self. now apply (H (self w) w). Qed.

Lemma hoare_while_fuel (I : world TCPProxyServer -> Prop)
  (body : M TCPProxyServer unit)
  (Qb Q : outcome unit -> world TCPProxyServer -> Prop) :
  hoare (fun w => I w /\ _running (self w) = true) body Qb ->
  (forall u w, Qb (Returned u) w -> I w) ->
  (forall w, Qb Raised w -> Q Raised w) ->
  (forall w, Qb Blocked w -> Q Blocked w) ->
  (forall w, Qb OutOfFuel w -> Q OutOfFuel w) ->
  (forall w, I w -> _running (self w) = false -> Q (Returned tt) w) ->
  (forall w, I w -> Q OutOfFuel w) ->
  forall fuel, hoare I (while_running_fuel fuel body) Q.
Proof.
  intros Hb Hi Hr Hbl Hf Hx Hz fuel.
  induction fuel as [|n IH]; intros w Hw; simpl.
  - now apply Hz.
  - destruct (_running (self w)) eqn:Hrun; simpl.
    + assert (Hbw := Hb w (conj Hw Hrun)).
      unfold mbind. destruct (body w) as [[u| | |] w']; simpl in *; auto.
      apply IH. eapply Hi, Hbw.
    + now apply Hx.
Qed.

Lemma hoare_while (I : world TCPProxyServer -> Prop)
  (body : M TCPProxyServer unit)
  (Qb Q : outcome unit -> world TCPProxyServer -> Prop) :
  hoare (fun w => I w /\ _running (self w) = true) body Qb ->
  (forall u w, Qb (Returned u) w -> I w) ->
  (forall w, Qb Raised w -> Q Raised w) ->
  (forall w, Qb Blocked w -> Q Blocked w) ->
  (forall w, Qb OutOfFuel w -> Q OutOfFuel w) ->
  (forall w, I w -> _running (self w) = false -> Q (Returned tt) w) ->
  (forall w, I w -> Q OutOfFuel w) ->
  hoare I (while_running body) Q.
Proof.
  intros Hb Hi Hr Hbl Hf Hx Hz w Hw. unfold while_running.
  now apply (hoare_while_fuel I body Qb Q Hb Hi Hr Hbl Hf Hx Hz _ w).
Qed.

Section KeepsServer.
Variable J : TCPProxyServer -> list event -> Prop.

Lemma keeps_with_self {A : Type} (k : TCPProxyServer -> M TCPProxyServer A) :
  (forall s, keeps J (k s)) -> keeps J (with_self k).
Proof. intros H w Hw. unfold with_self. now apply (H (self w) w). Qed.

Lemma keeps_while (body : M TCPProxyServer unit) :
  hoare (fun w => lift J w /\ _running (self w) = true) body (fun _ => lift J) ->
  keeps J (while_running body).
Proof.
  intros Hb. apply hoare_while with (Qb := fun _ => lift J); auto.
Qed.

End KeepsServer.

(** *** Fuel *)

Section Fuel.
Context {O : Type}.

Lemma consumes_settles {A : Type} (m : M O A) : consumes m -> settles m.
Proof. intros H w. destruct (H w) as (H1 & H2 & _). now split. Qed.

Lemma settles_ret {A : Type} (a : A) : settles (@ret O A a).
Proof. intros w. simpl. split; [discriminate|lia]. Qed.

Lemma settles_raise {A : Type} : settles (@raise O A).
Proof. intros w. simpl. split; [discriminate|lia]. Qed.

Lemma settles_emit (e : event) : settles (@emit O e).
Proof. intros w. simpl. split; [discriminate|lia]. Qed.

Lemma settles_bind {A B : Type} (m : M O A) (k : A -> M O B) :
  settles m -> (forall a, settles (k a)) -> settles (mbind m k).
Proof.
  intros Hm Hk w. destruct (Hm w) as [H1 H2]. unfold mbind.
  destruct (m w) as [[a| | |] w']; simpl in *;
    try (split; [discriminate|lia]); try congruence.
  destruct (Hk a w') as [H3 H4]. split; [assumption|lia].
Qed.

Lemma consumes_bind {A B : Type} (m : M O A) (k : A -> M O B) :
  consumes m -> (forall a, settles (k a)) -> consumes (mbind m k).
Proof.
  intros Hm Hk w. destruct (Hm w) as (H1 & H2 & H3). unfold mbind.
  destruct (m w) as [[a| | |] w']; simpl in *;
    try (repeat split; [discriminate|lia|discriminate]); try congruence.
  destruct (Hk a w') as [H4 H5]. specialize (H3 a eq_refl).
  repeat split; [assumption|lia|intros; lia].
Qed.

Lemma settles_try_except {A : Type} (body handler : M O A) :
  settles body -> settles handler -> settles (try_except body handler).
Proof.
  intros Hb Hh w. destruct (Hb w) as [H1 H2]. unfold try_except.
  destruct (body w) as [[a| | |] w']; simpl in *;
    try (split; [discriminate|lia]); try congruence.
  destruct (Hh w') as [H3 H4]. split; [assumption|lia].
Qed.

Lemma settles_try_finally {A : Type} (body : M O A) (fin : M O unit) :
  settles body -> settles fin -> settles (try_finally body fin).
Proof.
  intros Hb Hf w. destruct (Hb w) as [H1 H2]. unfold try_finally.
  destruct (body w) as [[a| | |] w']; simpl in *;
    try (split; [discriminate|lia]); try congruence;
    destruct (Hf w') as [H3 H4]; destruct (fin w') as [[u| | |] w''];
    simpl in *; try congruence; (split; [discriminate|lia]).
Qed.

Lemma settles_for_each {X : Type} (l : list X) (body : X -> M O unit) :
  (forall x, settles (body x)) -> settles (for_each l body).
Proof.
  intros Hb. induction l as [|x l IH]; simpl.
  - apply settles_ret.
  - apply settles_bind; auto.
Qed.

Lemma await_consumes `{Stoppable O} (c : syscall) (p : list reply) :
  forall (o : O) (t : list event),
    fst (await c o p t) <> OutOfFuel /\
    (List.length (pending (snd (await c o p t))) <= List.length p)%nat /\
    (forall v, fst (await c o p t) = Returned v ->
               (List.length (pending (snd (await c o p t))) < List.length p)%nat).
Proof.
  induction p as [|r p IH]; intros o t; simpl.
  - repeat split; [discriminate|lia|discriminate].
  - destruct r as [v| |]; simpl.
    + repeat split; [discriminate|lia|intros; lia].
    + repeat split; [discriminate|lia|discriminate].
    + destruct (IH (on_stop o) (t ++ [ShutDownCalled])) as (H1 & H2 & H3).
      repeat split; [assumption|lia|].
      intros v Hv. specialize (H3 v Hv). lia.
Qed.

Lemma consumes_call `{Stoppable O} (c : syscall) : consumes (call c).
Proof. intros w. unfold call. apply await_consumes. Qed.

End Fuel.

Lemma settles_with_self {A : Type} (k : TCPProxyServer -> M TCPProxyServer A) :
  (forall s, settles (k s)) -> settles (with_self k).
Proof. intros H w. unfold with_self. apply H. Qed.

Lemma consumes_with_self {A : Type} (k : TCPProxyServer -> M TCPProxyServer A) :
  (forall s, consumes (k s)) -> consumes (with_self k).
Proof. intros H w. unfold with_self. apply H. Qed.

Lemma settles_start_running : settles start_running.
Proof. intros w. simpl. split; [discriminate|lia]. Qed.

(** With more fuel than replies a loop whose body takes a reply at every
    turn does not run dry. *)
Lemma while_fuel_settles (body : M TCPProxyServer unit) :
  consumes body ->
  forall fuel w,
    (List.length (pending w) < fuel)%nat ->
    fst (while_running_fuel fuel body w) <> OutOfFuel /\
    (List.length (pending (snd (while_running_fuel fuel body w)))
     <= List.length (pending w))%nat.
Proof.
  intros Hb. induction fuel as [|n IH]; intros w Hlen; [lia|]. simpl.
  destruct (_running (self w)); simpl; [|split; [discriminate|lia]].
  destruct (Hb w) as (H1 & H2 & H3). unfold mbind.
  destruct (body w) as [[u| | |] w']; simpl in *;
    try (split; [discriminate|lia]); try congruence.
  specialize (H3 u eq_refl).
  destruct (IH w') as [H4 H5]; [lia|]. split; [assumption|lia].
Qed.

Lemma settles_while (body : M TCPProxyServer unit) :
  consumes body -> settles (while_running body).
Proof.
  intros Hb w. unfold while_running. apply while_fuel_settles; [assumption|lia].
Qed.

(** Any two amounts of fuel above the number of replies give the same run. *)
Lemma while_fuel_enough (body : M TCPProxyServer unit) :
  consumes body ->
  forall n m w,
    (List.length (pending w) < n)%nat -> (List.length (pending w) < m)%nat ->
    while_running_fuel n body w = while_running_fuel m body w.
Proof.
  intros Hb. induction n as [|n IH]; intros m w Hn Hm; [lia|].
  destruct m as [|m]; [lia|]. simpl.
  destruct (_running (self w)); [|reflexivity].
  destruct (Hb w) as (H1 & H2 & H3). unfold mbind.
  destruct (body w) as [[u| | |] w']; simpl in *; try reflexivity.
  specialize (H3 u eq_refl). apply IH; lia.
Qed.

(** One turn of [while self._running: body]. *)
Lemma while_running_unfold (body : M TCPProxyServer unit) :
  consumes body ->
  forall w,
    while_running body w =
    if _running (self w) then (body ;; while_running body) w
    else (Returned tt, w).
Proof.
  intros Hb w. unfold while_running at 1. simpl.
  destruct (_running (self w)); [|reflexivity].
  destruct (Hb w) as (H1 & H2 & H3). unfold mbind.
  destruct (body w) as [[u| | |] w']; simpl in *; try reflexivity.
  specialize (H3 u eq_refl). unfold while_running.
  apply while_fuel_enough; [assumption|lia|lia].
Qed.

(** ** The loops of the relay engine take a reply at every turn *)

Lemma forward_body_consumes (source destination : pyobj) (n : Z) :
  consumes (_forward_body source destination n).
Proof.
  unfold _forward_body. apply consumes_bind; [apply consumes_call|].
  intros data. destruct (truthy data); [|apply settles_ret].
  apply settles_bind; [apply consumes_settles, consumes_call|].
  intros _. apply settles_ret.
Qed.

Lemma forward_settles (source destination : pyobj) (n : Z) :
  settles (_forward source destination n).
Proof.
  unfold _forward. apply settles_try_except.
  - apply settles_while, forward_body_consumes.
  - apply settles_emit.
Qed.

Lemma handle_socket_settles (client_socket server_socket : pyobj) :
  settles (_handle_socket client_socket server_socket).
Proof.
  unfold _handle_socket.
  apply settles_bind;
    [apply settles_with_self; intros s; apply consumes_settles, consumes_call|].
  intros _. apply settles_bind; [apply settles_emit|].
  intros _. apply settles_bind; [apply settles_emit|].
  intros _. apply settles_with_self. intros s. apply settles_emit.
Qed.

Lemma accept_body_consumes (dock_socket : pyobj) :
  consumes (accept_body dock_socket).
Proof.
  unfold accept_body. apply consumes_bind; [apply consumes_call|].
  intros client_socket.
  apply settles_bind; [apply consumes_settles, consumes_call|].
  intros server_socket. apply handle_socket_settles.
Qed.

Lemma listen_body_consumes (dock_socket : pyobj) :
  consumes (listen_body dock_socket).
Proof.
  unfold listen_body. apply consumes_bind.
  - apply consumes_with_self. intros s. apply consumes_call.
  - intros _. apply settles_while, accept_body_consumes.
Qed.

Lemma serveConnection_settles : settles serveConnection.
Proof.
  unfold serveConnection.
  apply settles_bind; [apply settles_start_running|]. intros _.
  apply settles_bind; [apply settles_with_self; intros s; apply settles_emit|].
  intros _. apply settles_try_finally.
  - apply settles_try_except.
    + apply settles_bind; [apply consumes_settles, consumes_call|].
      intros dock_socket.
      apply settles_bind; [apply consumes_settles, consumes_call|]. intros _.
      apply settles_bind;
        [apply settles_with_self; intros s; apply consumes_settles, consumes_call|].
      intros _. apply settles_while, listen_body_consumes.
    + apply settles_bind; [apply settles_emit|]. intros _. apply settles_emit.
  - apply settles_with_self. intros s. apply settles_emit.
Qed.

(** The fuel of [while_running] is enough: neither thread body ever stops
    for lack of it. *)
Lemma serveConnection_fuel (w : world TCPProxyServer) :
  fst (serveConnection w) <> OutOfFuel.
Proof. apply serveConnection_settles. Qed.

Lemma forward_fuel (source destination : pyobj) (n : Z)
  (w : world TCPProxyServer) :
  fst (_forward source destination n w) <> OutOfFuel.
Proof. apply forward_settles. Qed.

(** ** Exceptions leave a loop body at once *)

Lemma no_exc_nil : no_exc [].
Proof. intros c H. exact H. Qed.

Lemma no_exc_app (t1 t2 : list event) :
  no_exc t1 -> no_exc t2 -> no_exc (t1 ++ t2).
Proof.
  intros H1 H2 c Hin. apply in_app_or in Hin as [Hin|Hin];
    [exact (H1 c Hin)|exact (H2 c Hin)].
Qed.

Lemma no_exc_one (e : event) : (forall c, e <> Exc c) -> no_exc [e].
Proof. intros H c [Hin|[]]. exact (H c Hin). Qed.

Lemma clean_refl {O : Type} (w : world O) : clean (trace w) w.
Proof. exists []. split; [now rewrite app_nil_r|apply no_exc_nil]. Qed.

Lemma clean_snoc {O : Type} (t0 : list event) (o : O) (p p' : list reply)
  (t : list event) (e : event) :
  (forall c, e <> Exc c) ->
  clean t0 (mkWorld o p t) -> clean t0 (mkWorld o p' (t ++ [e])).
Proof.
  intros He (evs & Ht & Hn). simpl in *. exists (evs ++ [e]). split.
  - now rewrite Ht, app_assoc.
  - apply no_exc_app; [assumption|now apply no_exc_one].
Qed.

Section ExcSafe.
Context {O : Type}.

Lemma exc_safe_ret {A : Type} (a : A) : exc_safe (@ret O A a).
Proof. intros t0 w Hw. exact Hw. Qed.

Lemma exc_safe_emit (e : event) :
  (forall c, e <> Exc c) -> exc_safe (@emit O e).
Proof.
  intros He t0 w Hw. simpl. destruct w as [o p t].
  now apply clean_snoc with (p := p).
Qed.

Lemma exc_safe_bind {A B : Type} (m : M O A) (k : A -> M O B) :
  exc_safe m -> (forall a, exc_safe (k a)) -> exc_safe (mbind m k).
Proof.
  intros Hm Hk t0.
  eapply hoare_bind; [apply Hm|intros a; apply Hk|..]; auto.
Qed.

Lemma exc_safe_call `{Stoppable O} (c : syscall) : exc_safe (call c).
Proof.
  intros t0.
  apply hoare_call with (K := fun o p t => clean t0 (mkWorld o p t)).
  - intros [o p t] Hw. simpl. now apply clean_snoc with (p := p).
  - intros o p t Hc. now apply clean_snoc with (p := Stop :: p).
  - intros o p t v Hc. simpl. now apply clean_snoc with (p := Returns v :: p).
  - intros o p t (evs & Ht & Hn). simpl in *. exists evs, c.
    split; [now rewrite Ht, app_assoc|assumption].
  - intros o t Hc. exact Hc.
Qed.

End ExcSafe.

Lemma exc_safe_with_self {A : Type} (k : TCPProxyServer -> M TCPProxyServer A) :
  (forall s, exc_safe (k s)) -> exc_safe (with_self k).
Proof. intros H t0 w Hw. unfold with_self. now apply H. Qed.

Lemma exc_safe_while (body : M TCPProxyServer unit) :
  exc_safe body -> exc_safe (while_running body).
Proof.
  intros Hb t0.
  apply hoare_while with (Qb := exc_post t0); auto.
  intros w [Hw _]. exact (Hb t0 w Hw).
Qed.

Lemma forward_body_exc_safe (source destination : pyobj) (n : Z) :
  exc_safe (_forward_body source destination n).
Proof.
  unfold _forward_body. apply exc_safe_bind; [apply exc_safe_call|].
  intros data. destruct (truthy data); [|apply exc_safe_ret].
  apply exc_safe_bind; [apply exc_safe_call|]. intros _. apply exc_safe_ret.
Qed.

Lemma handle_socket_exc_safe (client_socket server_socket : pyobj) :
  exc_safe (_handle_socket client_socket server_socket).
Proof.
  unfold _handle_socket.
  apply exc_safe_bind;
    [apply exc_safe_with_self; intros s; apply exc_safe_call|]. intros _.
  apply exc_safe_bind; [apply exc_safe_emit; discriminate|]. intros _.
  apply exc_safe_bind; [apply exc_safe_emit; discriminate|]. intros _.
  apply exc_safe_with_self. intros s. apply exc_safe_emit. discriminate.
Qed.

Lemma listen_body_exc_safe (dock_socket : pyobj) :
  exc_safe (listen_body dock_socket).
Proof.
  unfold listen_body. apply exc_safe_bind.
  - apply exc_safe_with_self. intros s. apply exc_safe_call.
  - intros _. apply exc_safe_while. unfold accept_body.
    apply exc_safe_bind; [apply exc_safe_call|]. intros client_socket.
    apply exc_safe_bind; [apply exc_safe_call|]. intros server_socket.
    apply handle_socket_exc_safe.
Qed.

(** ** The relay: [_forward] *)

(** C10.  [_forward] never lets an exception out.  For every state of the
    listener object, every script of replies and every buffer size, the run
    of [_forward] ends by returning or stays parked in a call for which no
    reply comes; it never raises (and the model never lacks fuel).  Either no
    call raised at all, or exactly one did, as the last call made: that
    exception was caught, ["Disconnected"] was logged at info level as the
    last event, and [_forward] returned. *)
Theorem forward_never_raises (source destination : pyobj) (n : Z)
  (w : world TCPProxyServer) :
  let r := _forward source destination n w in
  (fst r = Returned tt \/ fst r = Blocked) /\
  exists evs,
    trace (snd r) = trace w ++ evs /\
    (no_exc evs \/
     exists evs' c,
       evs = evs' ++ [Exc c; Log Info "Disconnected"] /\
       no_exc evs' /\ relay_call source destination n c /\
       fst r = Returned tt).
Proof.
  assert (Hloop := exc_safe_while _ (forward_body_exc_safe source destination n)
                     (trace w) w (clean_refl w)).
  assert (Hfuel := forward_fuel source destination n w).
  assert (Hcalls : hoare (fun _ => True)
            (while_running (_forward_body source destination n))
            (fun o w' => forall t c, trace w' = t ++ [Exc c] ->
                                     o = Raised ->
                                     relay_call source destination n c)).
  { apply hoare_while
      with (I := fun _ => True)
           (Qb := fun o w' => forall t c, trace w' = t ++ [Exc c] ->
                                          o = Raised ->
                                          relay_call source destination n c);
      try (intros; trivial; discriminate); auto.
    unfold _forward_body. eapply hoare_bind.
    - apply hoare_call
        with (K := fun _ _ _ => True)
             (Q := fun o w' =>
                     match o with
                     | Raised => forall t c, trace w' = t ++ [Exc c] ->
                                             relay_call source destination n c
                     | _ => True
                     end); simpl; auto.
      intros o p t _ t' c Ht. apply app_inj_tail in Ht as [_ Ht].
      injection Ht as Hc. subst c. now left.
    - intros data. destruct (truthy data).
      + eapply hoare_bind.
        * apply hoare_call
            with (K := fun _ _ _ => True)
                 (Q := fun o w' =>
                         match o with
                         | Raised => forall t c, trace w' = t ++ [Exc c] ->
                                                 relay_call source destination n c
                         | _ => True
                         end); simpl; auto.
          intros o p t _ t' c Ht. apply app_inj_tail in Ht as [_ Ht].
          injection Ht as Hc. subst c. right. now exists data.
        * intros u. apply hoare_ret. intros; discriminate.
        * simpl. intros w' H t c Ht _. eauto.
        * intros; discriminate.
        * intros; discriminate.
      + apply hoare_ret. intros; discriminate.
    - simpl. intros w' H t c Ht _. eauto.
    - intros; discriminate.
    - intros; discriminate. }
  specialize (Hcalls w I).
  unfold _forward, try_except in *.
  destruct (while_running (_forward_body source destination n) w)
    as [[u| | |] w'] eqn:E; simpl in *.
  - destruct u. split; [now left|]. destruct Hloop as (evs & Ht & Hn).
    exists evs. split; [assumption|now left].
  - split; [now left|]. destruct Hloop as (evs & c & Ht & Hn).
    exists (evs ++ [Exc c; Log Info "Disconnected"]). split.
    + rewrite Ht. rewrite <- !app_assoc. reflexivity.
    + right. exists evs, c. repeat split; try assumption.
      apply (Hcalls (trace w ++ evs) c); [|reflexivity].
      now rewrite Ht, app_assoc.
  - split; [now right|]. destruct Hloop as (evs & Ht & Hn).
    exists evs. split; [assumption|now left].
  - congruence.
Qed.

Lemma forward_unfold (source destination : pyobj) (n : Z)
  (w : world TCPProxyServer) :
  _forward source destination n w =
  if _running (self w) then
    try_except
      (_forward_body source destination n ;;
       while_running (_forward_body source destination n))
      (_info "Disconnected") w
  else (Returned tt, w).
Proof.
  unfold _forward, try_except.
  rewrite (while_running_unfold _ (forward_body_consumes source destination n)).
  now destruct (_running (self w)).
Qed.


(** ** The bytes a relay moves *)






Lemma Forall_snoc {X : Type} (P : X -> Prop) (l : list X) (x : X) :
  Forall P l -> P x -> Forall P (l ++ [x]).
Proof. intros Hl Hx. apply Forall_app. split; [assumption|now constructor]. Qed.
















(** ** Stopping a listener *)

Lemma quiet_nil : quiet [].
Proof. intros [|x t1] t2 H; discriminate. Qed.

Lemma quiet_snoc (t : list event) (e : event) :
  quiet t ->
  (forall s, e <> Call (sys_accept s)) \/ ~ In ShutDownCalled t ->
  quiet (t ++ [e]).
Proof.
  intros Hq He t1 t2 Heq.
  destruct (exists_last (l := ShutDownCalled :: t2)) as (l' & x & Hl);
    [discriminate|].
  rewrite Hl, app_assoc in Heq. apply app_inj_tail in Heq as [Ht Hx].
  subst x. destruct l' as [|y l'].
  - injection Hl as _ Hl. subst t2. intros s [].
  - injection Hl as Hy Hl. subst y t2.
    intros s Hin. apply in_app_or in Hin as [Hin|[Hin|[]]].
    + exact (Hq t1 l' Ht s Hin).
    + destruct He as [He|He]; [exact (He s Hin)|].
      apply He. rewrite Ht. apply in_or_app. right. now left.
Qed.

Lemma stop_inv_event (o : TCPProxyServer) (t : list event) (e : event) :
  e <> ShutDownCalled -> (forall s, e <> Call (sys_accept s)) ->
  stop_inv o t -> stop_inv o (t ++ [e]).
Proof.
  intros He Ha [Hf Hq]. split.
  - intros Hin. apply in_app_or in Hin as [Hin|[Hin|[]]]; [auto|congruence].
  - apply quiet_snoc; auto.
Qed.

Lemma stop_inv_stop (o : TCPProxyServer) (t : list event) :
  stop_inv o t -> stop_inv (on_stop o) (t ++ [ShutDownCalled]).
Proof.
  intros [Hf Hq]. split; [reflexivity|].
  apply quiet_snoc; [assumption|left; discriminate].
Qed.

Lemma stop_inv_accept (o : TCPProxyServer) (t : list event) (s : pyobj) :
  _running o = true ->
  stop_inv o t -> stop_inv o (t ++ [Call (sys_accept s)]).
Proof.
  intros Hrun [Hf Hq]. split.
  - intros Hin. apply in_app_or in Hin as [Hin|[Hin|[]]]; [auto|discriminate].
  - apply quiet_snoc; [assumption|]. right. intros Hin.
    rewrite (Hf Hin) in Hrun. discriminate.
Qed.

Lemma keeps_stop_emit (e : event) :
  e <> ShutDownCalled -> (forall s, e <> Call (sys_accept s)) ->
  keeps stop_inv (emit e).
Proof. intros He Ha. apply keeps_emit. intros o t. now apply stop_inv_event. Qed.

Lemma keeps_stop_call (c : syscall) :
  (forall s, c <> sys_accept s) -> keeps stop_inv (call c).
Proof.
  intros Hc. apply hoare_call_keeps.
  - intros w Hw. apply stop_inv_event; [discriminate| |exact Hw].
    intros s Heq. injection Heq as Heq. exact (Hc s Heq).
  - apply stop_inv_stop.
  - intros o t v. apply stop_inv_event; discriminate.
  - intros o t. apply stop_inv_event; discriminate.
Qed.

Lemma handle_socket_keeps_stop (client_socket server_socket : pyobj) :
  keeps stop_inv (_handle_socket client_socket server_socket).
Proof.
  unfold _handle_socket.
  apply keeps_bind;
    [apply keeps_with_self; intros s; apply keeps_stop_call; discriminate|].
  intros _. apply keeps_bind; [apply keeps_stop_emit; discriminate|].
  intros _. apply keeps_bind; [apply keeps_stop_emit; discriminate|].
  intros _. apply keeps_with_self. intros s.
  apply keeps_stop_emit; discriminate.
Qed.

Lemma accept_body_keeps_stop (dock_socket : pyobj) :
  hoare (fun w => lift stop_inv w /\ _running (self w) = true)
        (accept_body dock_socket) (fun _ => lift stop_inv).
Proof.
  unfold accept_body.
  apply hoare_bind with (Q1 := fun _ => lift stop_inv); auto.
  - apply hoare_call_keeps.
    + intros w [Hw Hrun]. now apply stop_inv_accept.
    + apply stop_inv_stop.
    + intros o t v. apply stop_inv_event; discriminate.
    + intros o t. apply stop_inv_event; discriminate.
  - intros client_socket.
    apply keeps_bind; [apply keeps_stop_call; discriminate|].
    intros server_socket. apply handle_socket_keeps_stop.
Qed.

Lemma listen_body_keeps_stop (dock_socket : pyobj) :
  keeps stop_inv (listen_body dock_socket).
Proof.
  unfold listen_body. apply keeps_bind.
  - apply keeps_with_self. intros s. apply keeps_stop_call. discriminate.
  - intros _. apply keeps_while, accept_body_keeps_stop.
Qed.

Lemma serveConnection_keeps_stop (srv : TCPProxyServer) (p : list reply) :
  lift stop_inv (snd (serveConnection (mkWorld srv p []))).
Proof.
  unfold serveConnection.
  apply (hoare_bind (fun w => trace w = [])
           start_running _ (fun _ => lift stop_inv) (fun _ => lift stop_inv));
    auto.
  - intros w Hw. unfold lift. simpl. rewrite Hw.
    split; [intros []|apply quiet_nil].
  - intros _. apply keeps_bind.
    + apply keeps_with_self. intros s. apply keeps_stop_emit; discriminate.
    + intros _. apply keeps_try_finally.
      * apply keeps_try_except.
        -- apply keeps_bind; [apply keeps_stop_call; discriminate|].
           intros dock_socket.
           apply keeps_bind; [apply keeps_stop_call; discriminate|].
           intros _. apply keeps_bind.
           ++ apply keeps_with_self. intros s.
              apply keeps_stop_call. discriminate.
           ++ intros _.
              apply keeps_while. intros w [Hw _].
              now apply listen_body_keeps_stop.
        -- apply keeps_bind; [apply keeps_stop_emit; discriminate|].
           intros _. apply keeps_stop_emit; discriminate.
      * apply keeps_with_self. intros s. apply keeps_stop_emit; discriminate.
Qed.

Lemma await_stops {O : Type} `{Stoppable O} (c : syscall) (k : nat) :
  forall (o : O) (t : list event),
    await c o (repeat Stop k) t =
    (Blocked, mkWorld (Nat.iter k on_stop o) [] (t ++ repeat ShutDownCalled k)).
Proof.
  induction k as [|k IH]; intros o t; simpl.
  - now rewrite app_nil_r.
  - rewrite IH, <- app_assoc. simpl. f_equal. f_equal.
    clear IH. induction k as [|k IHk]; simpl; [reflexivity|].
    now rewrite IHk.
Qed.

(** [serveConnection] begins by setting the flag: a [shutDown] that came
    before the thread ran its first statement is overwritten. *)
Lemma shutDown_before_start (srv : TCPProxyServer) (p : list reply)
  (t : list event) :
  serveConnection (mkWorld (shutDown srv) p t)
  = serveConnection (mkWorld srv p t).
Proof. reflexivity. Qed.

(** C6.  [shutDown] leaves the flag false.  In every run of a listener, a
    [shutDown] being one that comes once [serveConnection] has set the flag,
    the flag is false from the first [shutDown] on and no [accept] is begun
    after it: the [accept] that was waiting may still return and its
    connection is served, then the loop tests the flag and
    [serveConnection] returns, leaving whatever clients come later
    unanswered.  [shutDown] touches nothing else: a relay that waits in
    [recv] while the listener is shut down any number of times is still
    waiting in [recv]. *)
Theorem shutDown_stops_accepting (srv : TCPProxyServer) (p : list reply) :
  _running (shutDown srv) = false /\
  (let w' := snd (serveConnection (mkWorld srv p [])) in
   quiet (trace w') /\
   (In ShutDownCalled (trace w') -> _running (self w') = false)) /\
  (forall dock v1 v2 v3 client server v4,
     let r := serveConnection
                (mkWorld srv (Returns dock :: Returns v1 :: Returns v2 ::
                              Returns v3 :: Stop :: Returns client ::
                              Returns server :: Returns v4 :: p) []) in
     fst r = Returned tt /\ pending (snd r) = p /\
     accept_calls (trace (snd r)) = [dock] /\
     In (Ret (sys_accept dock) client) (trace (snd r)) /\
     In (Start (forward_of client server)) (trace (snd r))) /\
  (forall source destination n k t,
     _running srv = true ->
     _forward source destination n (mkWorld srv (repeat Stop k) t) =
     (Blocked,
      mkWorld (Nat.iter k shutDown srv) []
        (t ++ Call (sys_recv source n) :: repeat ShutDownCalled k))).
Proof.
  split; [reflexivity|]. split; [|split].
  - destruct (serveConnection_keeps_stop srv p) as [Hf Hq]. now split.
  - intros dock v1 v2 v3 client server v4 r. subst r.
    cbv -[endpoint String.append In]. repeat split; simpl; auto 20.
  - intros source destination n k t Hrun.
    rewrite forward_unfold. simpl self. rewrite Hrun.
    unfold try_except, _forward_body, mbind, call. cbn [self pending trace].
    rewrite await_stops. now rewrite <- app_assoc.
Qed.

(** ** The addresses a listener binds and connects to *)

Lemma config_inv_event (srv o : TCPProxyServer) (t : list event) (e : event) :
  uses srv e -> config_inv srv o t -> config_inv srv o (t ++ [e]).
Proof.
  intros He [Hc Hu]. split; [assumption|]. now apply Forall_snoc.
Qed.

Lemma config_inv_stop (srv o : TCPProxyServer) (t : list event) :
  config_inv srv o t -> config_inv srv (on_stop o) (t ++ [ShutDownCalled]).
Proof.
  intros [Hc Hu]. split; [exact Hc|]. now apply Forall_snoc.
Qed.

Lemma keeps_config_emit (srv : TCPProxyServer) (e : event) :
  uses srv e -> keeps (config_inv srv) (emit e).
Proof. intros He. apply keeps_emit. intros o t. now apply config_inv_event. Qed.

Lemma hoare_config_call (srv : TCPProxyServer) (c : syscall)
  (P : world TCPProxyServer -> Prop) :
  (forall w, P w -> lift (config_inv srv) w /\ uses srv (Call c)) ->
  hoare P (call c) (fun _ => lift (config_inv srv)).
Proof.
  intros HP. apply hoare_call_keeps.
  - intros w Hw. destruct (HP w Hw) as [HJ Hc]. now apply config_inv_event.
  - apply config_inv_stop.
  - intros o t v. now apply config_inv_event.
  - intros o t. now apply config_inv_event.
Qed.

Lemma keeps_config_call (srv : TCPProxyServer) (c : syscall) :
  uses srv (Call c) -> keeps (config_inv srv) (call c).
Proof. intros Hc. apply hoare_config_call. intros w Hw. now split. Qed.

Lemma handle_socket_keeps_config (srv : TCPProxyServer)
  (client_socket server_socket : pyobj) :
  keeps (config_inv srv) (_handle_socket client_socket server_socket).
Proof.
  unfold _handle_socket. apply keeps_bind.
  - apply hoare_with_self. intros s. apply hoare_config_call.
    intros w [Hw Hs]. split; [assumption|]. subst s.
    destruct Hw as [(_ & _ & _ & Ha & Hp & _) _]. now split.
  - intros _. apply keeps_bind; [now apply keeps_config_emit|].
    intros _. apply keeps_bind; [now apply keeps_config_emit|].
    intros _. apply keeps_with_self. intros s. now apply keeps_config_emit.
Qed.

Lemma listen_body_keeps_config (srv : TCPProxyServer) (dock_socket : pyobj) :
  keeps (config_inv srv) (listen_body dock_socket).
Proof.
  unfold listen_body. apply keeps_bind.
  - apply keeps_with_self. intros s. now apply keeps_config_call.
  - intros _. apply keeps_while. intros w [Hw _]. revert w Hw.
    unfold accept_body.
    apply keeps_bind; [now apply keeps_config_call|]. intros client_socket.
    apply keeps_bind; [now apply keeps_config_call|]. intros server_socket.
    apply handle_socket_keeps_config.
Qed.

Lemma serveConnection_keeps_config (srv : TCPProxyServer) :
  keeps (config_inv srv) serveConnection.
Proof.
  unfold serveConnection. apply keeps_bind.
  - intros w Hw. exact Hw.
  - intros _. apply keeps_bind.
    + apply keeps_with_self. intros s. now apply keeps_config_emit.
    + intros _. apply keeps_try_finally.
      * apply keeps_try_except.
        -- apply keeps_bind; [now apply keeps_config_call|].
           intros dock_socket.
           apply keeps_bind; [now apply keeps_config_call|]. intros _.
           apply keeps_bind.
           ++ apply hoare_with_self. intros s. apply hoare_config_call.
              intros w [Hw Hs]. split; [assumption|]. subst s.
              destruct Hw as [(_ & Ha & Hp & _) _]. now split.
           ++ intros _. apply keeps_while. intros w [Hw _].
              now apply listen_body_keeps_config.
        -- apply keeps_bind; [now apply keeps_config_emit|].
           intros _. now apply keeps_config_emit.
      * apply keeps_with_self. intros s. now apply keeps_config_emit.
Qed.

(** C5.  A subnet mask is stripped before the address is used.  When the
    bind address of a route is [host/mask] (a host part that is not empty and
    has no slash, then a slash and any mask) the listener made by [set] holds
    [host], and when it has no slash it holds the address as it is; the same
    for the destination address.  Every [bind] the listener makes is on that
    bind address and the listen port, every [connect] on that destination
    address and the destination port. *)
Theorem set_strips_subnet_mask (attrList : attrs) (backLog : Z)
  (bindHost destHost : string) (p : list reply) :
  stands_for (attr0 attrList) bindHost ->
  stands_for (attr2 attrList) destHost ->
  let srv := set attrList backLog in
  _bindAddress srv = bindHost /\
  _destAddress srv = destHost /\
  forall e,
    In e (trace (snd (serveConnection (mkWorld srv p [])))) ->
    match e with
    | Call (sys_bind _ addr port) => addr = bindHost /\ port = attr1 attrList
    | Call (sys_connect _ addr port) => addr = destHost /\ port = attr3 attrList
    | _ => True
    end.
Proof.
  intros Hb Hd srv.
  assert (Hbind : _bindAddress srv = bindHost)
    by (apply strip_mask_stands_for, Hb).
  assert (Hdest : _destAddress srv = destHost)
    by (apply strip_mask_stands_for, Hd).
  split; [assumption|]. split; [assumption|].
  intros e Hin.
  assert (Hinit : lift (config_inv srv) (mkWorld srv p [])).
  { split; [apply same_config_refl|constructor]. }
  destruct (serveConnection_keeps_config srv _ Hinit) as [_ Hu].
  rewrite Forall_forall in Hu. specialize (Hu e Hin).
  destruct e as [[]| | | | | | |]; simpl in Hu; try exact I;
    destruct Hu as [Ha Hp]; subst; now split.
Qed.

Lemma set_strips_subnet_mask_witness :
  let srv := set (mkAttrs "192.168.1.5/24" 9000 "10.0.0.1" 9001) 5 in
  _bindAddress srv = "192.168.1.5" /\
  _destAddress srv = "10.0.0.1" /\
  forall e,
    In e (trace (snd (serveConnection
                        (mkWorld srv [Returns (PySocket 3); Returns PyNone;
                                      Returns PyNone] [])))) ->
    match e with
    | Call (sys_bind _ addr port) => addr = "192.168.1.5" /\ port = 9000
    | Call (sys_connect _ addr port) => addr = "10.0.0.1" /\ port = 9001
    | _ => True
    end.
Proof.
  apply (set_strips_subnet_mask
           (mkAttrs "192.168.1.5/24" 9000 "10.0.0.1" 9001) 5
           "192.168.1.5" "10.0.0.1").
  - apply (with_mask "192.168.1.5" "24"); [discriminate|reflexivity].
  - apply without_mask. reflexivity.
Defined.

(** ** [serve], [shutDown] and the configuration *)

Lemma serve_run {O : Type} (routes : list attrs) (w : world O) :
  for_each routes (fun singleProxyAttr =>
    emit (Log Info ("Forwarding "
                    ++ endpoint (attr0 singleProxyAttr) (attr1 singleProxyAttr)
                    ++ " to "
                    ++ endpoint (attr2 singleProxyAttr) (attr3 singleProxyAttr))%string) ;;
    emit (Start (run (set singleProxyAttr backLog_default)))) w
  = (Returned tt,
     mkWorld (self w) (pending w) (trace w ++ flat_map announce routes)).
Proof.
  revert w. induction routes as [|a routes IH]; intros w.
  - simpl. rewrite app_nil_r. now destruct w.
  - cbn [for_each flat_map]. unfold mbind at 1. unfold mbind at 1.
    cbn [emit fst snd]. rewrite IH. cbn [self pending trace].
    unfold announce at 2. now rewrite <- !app_assoc.
Qed.

Lemma started_announce (routes : list attrs) :
  started (flat_map announce routes)
  = map (fun a => set a backLog_default) routes.
Proof.
  induction routes as [|a routes IH]; simpl; [reflexivity|].
  now rewrite IH.
Qed.

(** C7.  [serve] starts one listener per route.  For every list of routes
    and from any state, [serve] returns; it takes no reply from anyone, so it
    waits for nothing; what it adds to the trace is, route by route in the
    order of the list, the line ["Forwarding ..."] at info level and the
    start of one thread; the threads started are the listeners [set] makes
    from the routes (backlog 5), in list order and as many as there are
    routes; and a thread so started runs [serveConnection]. *)
Theorem serve_starts_one_listener_per_route {O : Type} (routes : list attrs)
  (w : world O) :
  let r := serve (mkTCPProxy (mkProxyConfig routes)) w in
  fst r = Returned tt /\
  self (snd r) = self w /\
  pending (snd r) = pending w /\
  trace (snd r) = trace w ++ flat_map announce routes /\
  started (flat_map announce routes)
  = map (fun a => set a backLog_default) routes /\
  List.length (started (flat_map announce routes)) = List.length routes /\
  (forall srv, run_target (run srv) = serveConnection).
Proof.
  unfold serve. simpl. rewrite serve_run. simpl.
  repeat split; try reflexivity.
  - apply started_announce.
  - now rewrite started_announce, length_map.
Qed.

(** C8.  [shutDown] changes the running flag and nothing else: the
    attribute list, the bind address, the listen port, the destination
    address, the destination port and the backlog of the listener are what
    they were, the flag is false; on a listener as [set] leaves it, whose
    flag is already false, [shutDown] changes nothing at all. *)
Theorem shutDown_frame (srv : TCPProxyServer) :
  _attrList (shutDown srv) = _attrList srv /\
  _bindAddress (shutDown srv) = _bindAddress srv /\
  _listenPort (shutDown srv) = _listenPort srv /\
  _destAddress (shutDown srv) = _destAddress srv /\
  _destPort (shutDown srv) = _destPort srv /\
  _backLog (shutDown srv) = _backLog srv /\
  _running (shutDown srv) = false /\
  (forall attrList backLog,
     shutDown (set attrList backLog) = set attrList backLog).
Proof. repeat split. Qed.

(** C9.  A configuration that cannot be loaded is an empty configuration.
    When [getDict] raises, [ProxyConfig.__init__] catches the exception and
    returns an object whose route list is empty, [getProxyAttrList] hands
    back that empty list, and [serve] on it returns without logging and
    without starting any thread. *)
Theorem missing_config_serves_nothing {O : Type} (w : world O) :
  getDict LoadFails w = (Raised, w) /\
  ProxyConfig_init LoadFails w = (Returned (mkProxyConfig []), w) /\
  getProxyAttrList (mkProxyConfig []) = [] /\
  serve (mkTCPProxy (mkProxyConfig [])) w = (Returned tt, w) /\
  main_serve LoadFails w = (Returned tt, w).
Proof. repeat split. Qed.

(** ** What the listener does when a call raises *)

(** C1.  The destination refuses the first client while a second client is
    waiting: the exception of [connect] is caught by the [except] of
    [serveConnection], outside both loops; the listener logs, sleeps a
    quarter of a second, logs its shutdown and returns.  The second client
    is never accepted: its replies are still pending when the thread ends. *)
Theorem refused_connect_ends_listener :
  serveConnection (mkWorld (set route_9000 backLog_default)
                     refused_then_waiting [])
  = (Returned tt,
     mkWorld
       (mkServer route_9000 "0.0.0.0" 9000 "127.0.0.1" 9001 true 5)
       [Returns (PySocket 6); Returns (PySocket 7); Returns PyNone]
       [Log Debug "Started server: Listen on TCP/IP port 0.0.0.0:9000 and forward to 127.0.0.1:9001";
        Call sys_socket; Ret sys_socket (PySocket 3);
        Call (sys_setsockopt (PySocket 3));
        Ret (sys_setsockopt (PySocket 3)) PyNone;
        Call (sys_bind (PySocket 3) "0.0.0.0" 9000);
        Ret (sys_bind (PySocket 3) "0.0.0.0" 9000) PyNone;
        Call (sys_listen (PySocket 3) 5);
        Ret (sys_listen (PySocket 3) 5) PyNone;
        Call (sys_accept (PySocket 3));
        Ret (sys_accept (PySocket 3)) (PySocket 4);
        Call sys_socket; Ret sys_socket (PySocket 5);
        Call (sys_connect (PySocket 5) "127.0.0.1" 9001);
        Exc (sys_connect (PySocket 5) "127.0.0.1" 9001);
        ErrorException;
        Sleep 250;
        Log Debug "Shutdown server listening on 0.0.0.0:9000"]).
Proof. vm_compute. reflexivity. Qed.

(** C2.  [bind] raises, or [accept] raises, while the flag is true: the
    listener logs the error, sleeps a quarter of a second, logs its shutdown
    and returns.  It makes no second [socket], [bind], [listen] or [accept]:
    the replies a second attempt would get are still pending when the thread
    ends, and the flag is still true. *)
Theorem failed_bind_or_accept_ends_listener :
  serveConnection (mkWorld (set route_9000 backLog_default) bind_fails_once [])
  = (Returned tt,
     mkWorld
       (mkServer route_9000 "0.0.0.0" 9000 "127.0.0.1" 9001 true 5)
       [Returns (PySocket 4); Returns PyNone; Returns PyNone; Returns PyNone]
       [Log Debug "Started server: Listen on TCP/IP port 0.0.0.0:9000 and forward to 127.0.0.1:9001";
        Call sys_socket; Ret sys_socket (PySocket 3);
        Call (sys_setsockopt (PySocket 3));
        Ret (sys_setsockopt (PySocket 3)) PyNone;
        Call (sys_bind (PySocket 3) "0.0.0.0" 9000);
        Exc (sys_bind (PySocket 3) "0.0.0.0" 9000);
        ErrorException;
        Sleep 250;
        Log Debug "Shutdown server listening on 0.0.0.0:9000"]) /\
  serveConnection (mkWorld (set route_9000 backLog_default) accept_fails_once [])
  = (Returned tt,
     mkWorld
       (mkServer route_9000 "0.0.0.0" 9000 "127.0.0.1" 9001 true 5)
       [Returns (PySocket 4); Returns PyNone; Returns PyNone; Returns PyNone]
       [Log Debug "Started server: Listen on TCP/IP port 0.0.0.0:9000 and forward to 127.0.0.1:9001";
        Call sys_socket; Ret sys_socket (PySocket 3);
        Call (sys_setsockopt (PySocket 3));
        Ret (sys_setsockopt (PySocket 3)) PyNone;
        Call (sys_bind (PySocket 3) "0.0.0.0" 9000);
        Ret (sys_bind (PySocket 3) "0.0.0.0" 9000) PyNone;
        Call (sys_listen (PySocket 3) 5);
        Ret (sys_listen (PySocket 3) 5) PyNone;
        Call (sys_accept (PySocket 3));
        Exc (sys_accept (PySocket 3));
        ErrorException;
        Sleep 250;
        Log Debug "Shutdown server listening on 0.0.0.0:9000"]).
Proof. split; vm_compute; reflexivity. Qed.

(** X2.  In every run of a listener, the first call that raises is the
    last call it makes: what follows is the error log, the pause, the
    shutdown line and the return of [serveConnection]. *)
Lemma serveConnection_ends_on_exception (w : world TCPProxyServer) :
  let r := serveConnection w in
  exists evs,
    trace (snd r) = trace w ++ evs /\
    (no_exc evs \/
     exists evs' c,
       evs = evs' ++ [Exc c; ErrorException; Sleep retry_pause_ms;
                      shutdown_line (self (snd r))] /\
       no_exc evs' /\ fst r = Returned tt).
Proof.
  intros r. assert (Hr : serveConnection w = r) by reflexivity. clearbody r.
  unfold serveConnection in Hr.
  unfold mbind at 1 in Hr. cbn [start_running fst snd] in Hr.
  unfold mbind at 1 in Hr. unfold with_self at 1, _debug at 1 in Hr.
  cbn [emit fst snd self pending trace] in Hr.
  match type of Hr with
  | context [try_finally (try_except ?b ?h) ?f ?x] =>
      set (body := b) in Hr; set (w1 := x) in Hr
  end.
  assert (Hsafe : exc_safe body).
  { subst body.
    apply exc_safe_bind; [apply exc_safe_call|]. intros dock_socket.
    apply exc_safe_bind; [apply exc_safe_call|]. intros _.
    apply exc_safe_bind;
      [apply exc_safe_with_self; intros s; apply exc_safe_call|]. intros _.
    apply exc_safe_while, listen_body_exc_safe. }
  assert (Hb := Hsafe (trace w1) w1 (clean_refl w1)).
  assert (Ht1 : exists e, trace w1 = trace w ++ [e] /\ forall c, e <> Exc c).
  { eexists. split; [reflexivity|discriminate]. }
  destruct Ht1 as (e1 & Ht1 & He1). clearbody w1. clearbody body.
  unfold try_finally, try_except in Hr.
  destruct (body w1) as [[u| | |] w2]; cbn [fst snd] in *.
  - destruct Hb as (evs & Ht & Hn).
    unfold with_self, _debug, emit in Hr.
    cbn [fst snd abort trace self pending] in Hr. subst r. cbn [fst snd trace].
    exists ([e1] ++ evs ++ [shutdown_line (self w2)]). split.
    + rewrite Ht, Ht1, <- !app_assoc. reflexivity.
    + left. apply no_exc_app; [now apply no_exc_one|].
      apply no_exc_app; [assumption|apply no_exc_one; discriminate].
  - destruct Hb as (evs & c & Ht & Hn).
    unfold mbind, with_self, _debug, emit in Hr.
    cbn [fst snd reraise abort trace self pending] in Hr. subst r.
    cbn [fst snd trace self].
    exists (([e1] ++ evs) ++ [Exc c; ErrorException; Sleep retry_pause_ms;
                              shutdown_line (self w2)]). split.
    + rewrite Ht, Ht1, <- !app_assoc. reflexivity.
    + right. exists ([e1] ++ evs), c. split; [reflexivity|].
      split; [|reflexivity].
      apply no_exc_app; [now apply no_exc_one|assumption].
  - destruct Hb as (evs & Ht & Hn). subst r. cbn [fst snd].
    exists ([e1] ++ evs). split.
    + rewrite Ht, Ht1, <- !app_assoc. reflexivity.
    + left. apply no_exc_app; [now apply no_exc_one|assumption].
  - destruct Hb as (evs & Ht & Hn). subst r. cbn [fst snd].
    exists ([e1] ++ evs). split.
    + rewrite Ht, Ht1, <- !app_assoc. reflexivity.
    + left. apply no_exc_app; [now apply no_exc_one|assumption].
Qed.

(** ** Instances *)


Lemma shutDown_stops_accepting_witness :
  _running listener_9000 = true /\
  _forward (PySocket 4) (PySocket 5) 65536
    (mkWorld listener_9000 [Stop; Stop] [])
  = (Blocked,
     mkWorld (shutDown (shutDown listener_9000)) []
       [Call (sys_recv (PySocket 4) 65536); ShutDownCalled; ShutDownCalled]).
Proof.
  split; [reflexivity|].
  exact (proj2 (proj2 (proj2 (shutDown_stops_accepting listener_9000 [])))
           (PySocket 4) (PySocket 5) 65536 2%nat [] eq_refl).
Defined.

(** The listener of a route with a mask binds the host part. *)
Example masked_route_binds_host :
  In (Call (sys_bind (PySocket 3) "192.168.1.5" 9000))
     (trace (snd (serveConnection
                    (mkWorld (set route_masked backLog_default)
                       [Returns (PySocket 3); Returns PyNone; Returns PyNone]
                       [])))).
Proof. vm_compute. auto 10. Qed.

(** The scenario of the specification, client to echo service: the relay
    reads [b"ping"] from the client and hands [b"ping"] to the service. *)
Example ping_is_forwarded :
  let r := _forward (PySocket 4) (PySocket 5) rxBufferSize_default
             (mkWorld listener_9000 [Returns ping; Returns PyNone] []) in
  fst r = Blocked /\
  received (trace (snd r)) = [ping] /\
  written (trace (snd r)) = [ping].
Proof. vm_compute. auto. Qed.


(** ** More about the listener *)

(** X1.  [serveConnection] never lets an exception out: from any state and
    against any script of replies it returns, or stays parked in a call that
    gets no reply.  When it returns, the line it logged last is
    ["Shutdown server listening on ..."] with its bind address and port. *)
Theorem serveConnection_never_raises (w : world TCPProxyServer) :
  let r := serveConnection w in
  (fst r = Returned tt /\
   exists t, trace (snd r) = t ++ [shutdown_line (self (snd r))]) \/
  fst r = Blocked.
Proof.
  intros r. assert (Hr : serveConnection w = r) by reflexivity.
  assert (Hfuel : fst r <> OutOfFuel) by apply serveConnection_fuel.
  clearbody r.
  unfold serveConnection in Hr.
  unfold mbind at 1 in Hr. cbn [start_running fst snd] in Hr.
  unfold mbind at 1 in Hr. unfold with_self at 1, _debug at 1 in Hr.
  cbn [emit fst snd self pending trace] in Hr.
  match type of Hr with
  | context [try_finally (try_except ?b ?h) ?f ?x] =>
      set (body := b) in Hr; set (w1 := x) in Hr
  end.
  clearbody w1. clearbody body.
  unfold try_finally, try_except in Hr.
  destruct (body w1) as [[u| | |] w2]; cbn [fst snd] in *.
  - unfold with_self, _debug, emit in Hr.
    cbn [fst snd abort trace self pending] in Hr. subst r. destruct u.
    left. split; [reflexivity|]. now exists (trace w2).
  - unfold mbind, with_self, _debug, emit in Hr.
    cbn [fst snd reraise abort trace self pending] in Hr. subst r.
    left. split; [reflexivity|]. cbn [fst snd trace self]. eexists. reflexivity.
  - subst r. now right.
  - subst r. now elim Hfuel.
Qed.

(** *** A relay after [shutDown] *)

Lemma silent_nil (bad : event -> Prop) : silent bad [].
Proof. intros [|x t1] t2 H; discriminate. Qed.

Lemma silent_snoc (bad : event -> Prop) (t : list event) (e : event) :
  silent bad t ->
  ~ bad e \/ ~ In ShutDownCalled t ->
  silent bad (t ++ [e]).
Proof.
  intros Hq He t1 t2 Heq.
  destruct (exists_last (l := ShutDownCalled :: t2)) as (l' & x & Hl);
    [discriminate|].
  rewrite Hl, app_assoc in Heq. apply app_inj_tail in Heq as [Ht Hx].
  subst x. destruct l' as [|y l'].
  - injection Hl as _ Hl. subst t2. intros e' [].
  - injection Hl as Hy Hl. subst y t2.
    intros e' Hin. apply in_app_or in Hin as [Hin|[Hin|[]]].
    + exact (Hq t1 l' Ht e' Hin).
    + subst e'. destruct He as [He|He]; [exact He|].
      intros _. apply He. rewrite Ht. apply in_or_app. right. now left.
Qed.

Lemma relay_stop_inv_event (o : TCPProxyServer) (t : list event) (e : event) :
  e <> ShutDownCalled -> ~ is_recv_call e ->
  relay_stop_inv o t -> relay_stop_inv o (t ++ [e]).
Proof.
  intros He Ha [Hf Hq]. split.
  - intros Hin. apply in_app_or in Hin as [Hin|[Hin|[]]]; [auto|congruence].
  - apply silent_snoc; auto.
Qed.

Lemma relay_stop_inv_stop (o : TCPProxyServer) (t : list event) :
  relay_stop_inv o t -> relay_stop_inv (on_stop o) (t ++ [ShutDownCalled]).
Proof.
  intros [Hf Hq]. split; [reflexivity|].
  apply silent_snoc; [assumption|left; intros []].
Qed.

Lemma relay_stop_inv_recv (o : TCPProxyServer) (t : list event)
  (s : pyobj) (n : Z) :
  _running o = true ->
  relay_stop_inv o t -> relay_stop_inv o (t ++ [Call (sys_recv s n)]).
Proof.
  intros Hrun [Hf Hq]. split.
  - intros Hin. apply in_app_or in Hin as [Hin|[Hin|[]]]; [auto|discriminate].
  - apply silent_snoc; [assumption|]. right. intros Hin.
    rewrite (Hf Hin) in Hrun. discriminate.
Qed.

Lemma forward_body_keeps_stop (source destination : pyobj) (n : Z) :
  hoare (fun w => lift relay_stop_inv w /\ _running (self w) = true)
        (_forward_body source destination n) (fun _ => lift relay_stop_inv).
Proof.
  unfold _forward_body.
  apply hoare_bind with (Q1 := fun _ => lift relay_stop_inv); auto.
  - apply hoare_call_keeps.
    + intros w [Hw Hrun]. now apply relay_stop_inv_recv.
    + apply relay_stop_inv_stop.
    + intros o t v. apply relay_stop_inv_event; [discriminate|intros []].
    + intros o t. apply relay_stop_inv_event; [discriminate|intros []].
  - intros data. destruct (truthy data); [|apply keeps_ret].
    apply keeps_bind; [|intros _; apply keeps_ret].
    apply hoare_call_keeps.
    + intros w Hw. apply relay_stop_inv_event;
        [discriminate|intros []|exact Hw].
    + apply relay_stop_inv_stop.
    + intros o t v. apply relay_stop_inv_event; [discriminate|intros []].
    + intros o t. apply relay_stop_inv_event; [discriminate|intros []].
Qed.

(** X4.  [shutDown] winds a relay down as well.  In every run of [_forward],
    once a [shutDown] of the listener has come the flag stays false and the
    relay begins no further [recv]: the read that was waiting may return and
    its chunk is still passed on, then the loop ends. *)
Theorem relay_reads_nothing_after_shutDown (source destination : pyobj)
  (n : Z) (srv : TCPProxyServer) (p : list reply) :
  let w' := snd (_forward source destination n (mkWorld srv p [])) in
  silent is_recv_call (trace w') /\
  (In ShutDownCalled (trace w') -> _running (self w') = false).
Proof.
  assert (H : lift relay_stop_inv
                (snd (_forward source destination n (mkWorld srv p [])))).
  { unfold _forward.
    apply (keeps_try_except relay_stop_inv).
    - apply keeps_while, forward_body_keeps_stop.
    - apply keeps_emit. intros o t.
      apply relay_stop_inv_event; [discriminate|intros []].
    - split; [intros []|apply silent_nil]. }
  destruct H as [Hf Hq]. now split.
Qed.

(** *** Two relays for every connection *)

Lemma accepted_app (t1 t2 : list event) :
  accepted (t1 ++ t2) = accepted t1 ++ accepted t2.
Proof. apply flat_map_app. Qed.

Lemma connected_app (t1 t2 : list event) :
  connected (t1 ++ t2) = connected t1 ++ connected t2.
Proof. apply flat_map_app. Qed.

Lemma relays_app (t1 t2 : list event) :
  relays (t1 ++ t2) = relays t1 ++ relays t2.
Proof. apply flat_map_app. Qed.

Lemma combine_same_length {X Y : Type} (a a' : list X) (c c' : list Y) :
  List.length a = List.length c ->
  combine (a ++ a') (c ++ c') = combine a c ++ combine a' c'.
Proof.
  revert c. induction a as [|x a IH]; intros [|y c] Hl; simpl in *;
    try discriminate; [reflexivity|].
  f_equal. apply IH. now injection Hl.
Qed.

Lemma combine_one_more {X Y : Type} (a : list X) (x : X) (c : list Y) :
  List.length a = List.length c -> combine (a ++ [x]) c = combine a c.
Proof.
  intros Hl. rewrite <- (app_nil_r c) at 1.
  rewrite combine_same_length by assumption. simpl. apply app_nil_r.
Qed.

Ltac neutral_snoc Hn :=
  destruct Hn as (Hna & Hnc & Hnr);
  rewrite ?accepted_app, ?connected_app, ?relays_app, ?Hna, ?Hnc, ?Hnr,
    ?app_nil_r.

Lemma paired_neutral (t : list event) (e : event) :
  neutral e -> paired t -> paired (t ++ [e]).
Proof. intros Hn [Hl Hr]. unfold paired. neutral_snoc Hn. now split. Qed.

Lemma paired_or_pending_neutral (t : list event) (e : event) :
  neutral e -> paired_or_pending t -> paired_or_pending (t ++ [e]).
Proof.
  intros Hn [Hl Hr]. unfold paired_or_pending. neutral_snoc Hn. now split.
Qed.

Lemma pending_client_neutral (client : pyobj) (t : list event) (e : event) :
  neutral e -> pending_client client t -> pending_client client (t ++ [e]).
Proof.
  intros Hn (a & Ha & Hl & Hr). exists a. neutral_snoc Hn. now repeat split.
Qed.

Lemma connecting_neutral (client server : pyobj)
  (begun : list (pyobj * pyobj)) (t : list event) (e : event) :
  neutral e -> connecting client server begun t ->
  connecting client server begun (t ++ [e]).
Proof.
  intros Hn (a & c & Ha & Hc & Hl & Hr). exists a, c. neutral_snoc Hn.
  now repeat split.
Qed.

Lemma paired_weaken (t : list event) : paired t -> paired_or_pending t.
Proof. intros [Hl Hr]. split; [now left|assumption]. Qed.

Lemma pending_client_weaken (client : pyobj) (t : list event) :
  pending_client client t -> paired_or_pending t.
Proof.
  intros (a & Ha & Hl & Hr). split.
  - right. rewrite Ha, length_app. simpl. lia.
  - rewrite Ha, combine_one_more by assumption. exact Hr.
Qed.

Lemma paired_accept (t : list event) (s client : pyobj) :
  paired t -> pending_client client (t ++ [Ret (sys_accept s) client]).
Proof.
  intros [Hl Hr]. exists (accepted t).
  rewrite accepted_app, connected_app, relays_app. simpl.
  rewrite !app_nil_r. now repeat split.
Qed.

Lemma pending_client_connect (t : list event) (client server v : pyobj)
  (addr : string) (port : Z) :
  pending_client client t ->
  connecting client server []
    (t ++ [Ret (sys_connect server addr port) v]).
Proof.
  intros (a & Ha & Hl & Hr). exists a, (connected t).
  rewrite accepted_app, connected_app, relays_app. simpl.
  rewrite !app_nil_r. now repeat split.
Qed.

Lemma connecting_start (t : list event) (client server a b : pyobj)
  (begun : list (pyobj * pyobj)) :
  connecting client server begun t ->
  connecting client server (begun ++ [(a, b)])
    (t ++ [Start (forward_of a b)]).
Proof.
  intros (la & lc & Ha & Hc & Hl & Hr). exists la, lc.
  rewrite accepted_app, connected_app, relays_app. simpl.
  rewrite !app_nil_r, Hr, <- app_assoc. now repeat split.
Qed.

Lemma connecting_done (t : list event) (client server : pyobj) :
  connecting client server (both_ways (client, server)) t -> paired t.
Proof.
  intros (a & c & Ha & Hc & Hl & Hr). split.
  - rewrite Ha, Hc, !length_app. simpl. lia.
  - rewrite Ha, Hc, combine_same_length, flat_map_app by assumption.
    simpl. rewrite ?app_nil_r. exact Hr.
Qed.

(** A call that is neither [accept] nor [connect] keeps each of the
    stages. *)
Lemma hoare_neutral_call (P : list event -> Prop) (c : syscall) :
  (forall t e, neutral e -> P t -> P (t ++ [e])) ->
  (forall s, c <> sys_accept s) ->
  (forall s a p, c <> sys_connect s a p) ->
  hoare (fun w : world TCPProxyServer => P (trace w)) (call c)
        (fun _ w => P (trace w)).
Proof.
  intros HP Ha Hc.
  apply (hoare_call_keeps (fun _ t => P t)).
  - intros w Hw. apply HP; [now repeat split|exact Hw].
  - intros o t Ht. apply HP; [now repeat split|exact Ht].
  - intros o t v Ht. apply HP; [|exact Ht].
    destruct c; try (now repeat split);
      [elim (Ha s); reflexivity|elim (Hc s addr port); reflexivity].
  - intros o t Ht. apply HP; [now repeat split|exact Ht].
Qed.

Lemma hoare_try_finally {O A : Type} (P R : world O -> Prop)
  (body : M O A) (fin : M O unit) :
  hoare P body (fun _ => R) -> hoare R fin (fun _ => R) ->
  hoare P (try_finally body fin) (fun _ => R).
Proof.
  intros Hb Hf w Hw. specialize (Hb w Hw). unfold try_finally.
  destruct (body w) as [[a| | |] w']; simpl in *; auto;
    specialize (Hf w' Hb); destruct (fin w') as [o w'']; exact Hf.
Qed.

Lemma hoare_emit_bind {O A : Type} (P P' : world O -> Prop) (e : event)
  (k : M O A) (Q : outcome A -> world O -> Prop) :
  (forall w, P w -> P' (mkWorld (self w) (pending w) (trace w ++ [e]))) ->
  hoare P' k Q ->
  hoare P (emit e ;; k) Q.
Proof. intros He Hk w Hw. unfold mbind, emit. apply Hk, He, Hw. Qed.

Lemma handle_socket_pairs (client_socket server_socket : pyobj) :
  hoare (fun w => pending_client client_socket (trace w))
        (_handle_socket client_socket server_socket) conn_post.
Proof.
  unfold _handle_socket.
  apply hoare_bind
    with (Q1 := fun o w =>
                  match o with
                  | Returned _ =>
                      connecting client_socket server_socket [] (trace w)
                  | _ => paired_or_pending (trace w)
                  end); auto.
  - apply hoare_with_self. intros s.
    apply hoare_call
      with (K := fun _ _ t => pending_client client_socket t).
    + intros w [Hw _]. apply pending_client_neutral; [now repeat split|exact Hw].
    + intros o p t Ht. apply pending_client_neutral; [now repeat split|exact Ht].
    + intros o p t v Ht. now apply pending_client_connect.
    + intros o p t Ht. apply (pending_client_weaken client_socket).
      apply pending_client_neutral; [now repeat split|exact Ht].
    + intros o t Ht. now apply (pending_client_weaken client_socket).
  - intros _.
    apply hoare_emit_bind
      with (P' := fun w => connecting client_socket server_socket
                             [(client_socket, server_socket)] (trace w)).
    { intros w Hw. exact (connecting_start _ _ _ _ _ _ Hw). }
    apply hoare_emit_bind
      with (P' := fun w => connecting client_socket server_socket
                             (both_ways (client_socket, server_socket))
                             (trace w)).
    { intros w Hw. exact (connecting_start _ _ _ _ _ _ Hw). }
    apply hoare_with_self. intros s. apply hoare_emit.
    intros w [Hw _]. simpl. apply paired_neutral; [now repeat split|].
    now apply connecting_done with client_socket server_socket.
Qed.

Lemma accept_body_pairs (dock_socket : pyobj) :
  hoare (fun w => paired (trace w) /\ _running (self w) = true)
        (accept_body dock_socket) conn_post.
Proof.
  unfold accept_body.
  apply hoare_bind
    with (Q1 := fun o w =>
                  match o with
                  | Returned client => pending_client client (trace w)
                  | _ => paired_or_pending (trace w)
                  end); auto.
  - apply hoare_call with (K := fun _ _ t => paired t).
    + intros w [Hw _]. apply paired_neutral; [now repeat split|exact Hw].
    + intros o p t Ht. apply paired_neutral; [now repeat split|exact Ht].
    + intros o p t v Ht. now apply paired_accept.
    + intros o p t Ht. apply paired_weaken.
      apply paired_neutral; [now repeat split|exact Ht].
    + intros o t Ht. now apply paired_weaken.
  - intros client_socket.
    apply hoare_bind
      with (Q1 := fun _ w => pending_client client_socket (trace w)).
    + apply (hoare_neutral_call (pending_client client_socket));
        [apply pending_client_neutral|discriminate|discriminate].
    + intros server_socket. apply handle_socket_pairs.
    + intros w. apply (pending_client_weaken client_socket).
    + intros w. apply (pending_client_weaken client_socket).
    + intros w. apply (pending_client_weaken client_socket).
Qed.

Lemma listen_body_pairs (dock_socket : pyobj) :
  hoare (fun w => paired (trace w)) (listen_body dock_socket) conn_post.
Proof.
  unfold listen_body.
  apply hoare_bind with (Q1 := fun _ w => paired (trace w)).
  - apply hoare_with_self. intros s.
    apply (hoare_conseq (fun w => paired (trace w)) _ _
             (fun _ w => paired (trace w)));
      [now intros w [Hw _]|auto|].
    apply (hoare_neutral_call paired);
      [apply paired_neutral|discriminate|discriminate].
  - intros _. apply hoare_while with (Qb := conn_post); auto.
    + apply accept_body_pairs.
    + intros w Hw. now apply paired_weaken.
  - intros w. apply paired_weaken.
  - intros w. apply paired_weaken.
  - intros w. apply paired_weaken.
Qed.

(** X3.  Two relays for every connection, and no others.  In every run of
    a listener the relays started are, connection by connection in the order
    of the accepts, the relay from the accepted client socket to the server
    socket connected for it and the relay back; every accepted socket has
    its server socket, except possibly the last one accepted, for which
    [socket] or [connect] raised or never returned and no relay is
    started. *)
Theorem two_relays_per_connection (srv : TCPProxyServer) (p : list reply) :
  let t := trace (snd (serveConnection (mkWorld srv p []))) in
  relays t = flat_map both_ways (combine (accepted t) (connected t)) /\
  (List.length (accepted t) = List.length (connected t) \/
   List.length (accepted t) = S (List.length (connected t))).
Proof.
  assert (H : paired_or_pending
                (trace (snd (serveConnection (mkWorld srv p []))))).
  { unfold serveConnection.
    apply (hoare_bind (fun w => paired (trace w)) start_running _
             (fun _ w => paired (trace w))
             (fun _ w => paired_or_pending (trace w)));
      try (intros w; apply paired_weaken).
    - intros w Hw. exact Hw.
    - intros _.
      apply hoare_bind with (Q1 := fun _ w => paired (trace w));
        try (intros w; apply paired_weaken).
      + apply hoare_with_self. intros s. apply hoare_emit.
        intros w [Hw _]. simpl. apply paired_neutral; [now repeat split|exact Hw].
      + intros _. apply hoare_try_finally.
        * apply hoare_try_except
            with (Q1 := fun _ w => paired_or_pending (trace w)); auto.
          -- apply hoare_bind with (Q1 := fun _ w => paired (trace w));
               try (intros w; apply paired_weaken).
             ++ apply (hoare_neutral_call paired);
                  [apply paired_neutral|discriminate|discriminate].
             ++ intros dock_socket.
                apply hoare_bind with (Q1 := fun _ w => paired (trace w));
                  try (intros w; apply paired_weaken).
                ** apply (hoare_neutral_call paired);
                     [apply paired_neutral|discriminate|discriminate].
                ** intros _.
                   apply hoare_bind with (Q1 := fun _ w => paired (trace w));
                     try (intros w; apply paired_weaken).
                   --- apply hoare_with_self. intros s.
                       apply (hoare_conseq (fun w => paired (trace w)) _ _
                                (fun _ w => paired (trace w)));
                         [now intros w [Hw _]|auto|].
                       apply (hoare_neutral_call paired);
                         [apply paired_neutral|discriminate|discriminate].
                   --- intros _.
                       apply hoare_while with (Qb := conn_post);
                         auto; try (intros w; apply paired_weaken).
                       +++ intros w [Hw _].
                           exact (listen_body_pairs dock_socket w Hw).
                       +++ intros w Hw _. now apply paired_weaken.
          -- apply hoare_bind
               with (Q1 := fun _ w => paired_or_pending (trace w)); auto.
             ++ apply hoare_emit. intros w Hw. simpl.
                apply paired_or_pending_neutral; [now repeat split|exact Hw].
             ++ intros _. apply hoare_emit. intros w Hw. simpl.
                apply paired_or_pending_neutral; [now repeat split|exact Hw].
        * apply hoare_with_self. intros s. apply hoare_emit.
          intros w [Hw _]. simpl.
          apply paired_or_pending_neutral; [now repeat split|exact Hw].
    - split; reflexivity. }
  destruct H as [Hl Hr]. now split.
Qed.

(** *** One [bind] and one [listen] *)

Lemma bind_calls_app (t1 t2 : list event) :
  bind_calls (t1 ++ t2) = bind_calls t1 ++ bind_calls t2.
Proof. apply flat_map_app. Qed.

Lemma listen_calls_app (t1 t2 : list event) :
  listen_calls (t1 ++ t2) = listen_calls t1 ++ listen_calls t2.
Proof. apply flat_map_app. Qed.

Lemma at_most_no_setup (b l : nat) (t : list event) (e : event) :
  no_setup e -> at_most b l t -> at_most b l (t ++ [e]).
Proof.
  intros [Hb Hl] [H1 H2]. unfold at_most.
  now rewrite bind_calls_app, listen_calls_app, Hb, Hl, !app_nil_r.
Qed.

Lemma at_most_bind (l : nat) (t : list event) (s : pyobj) (a : string)
  (p : Z) :
  at_most 0 l t -> at_most 1 l (t ++ [Call (sys_bind s a p)]).
Proof.
  intros [H1 H2]. unfold at_most.
  rewrite bind_calls_app, listen_calls_app. simpl.
  rewrite ?app_nil_r, ?length_app. simpl. split; lia.
Qed.

Lemma at_most_listen (b : nat) (t : list event) (s : pyobj) (n : Z) :
  at_most b 0 t -> at_most b 1 (t ++ [Call (sys_listen s n)]).
Proof.
  intros [H1 H2]. unfold at_most.
  rewrite bind_calls_app, listen_calls_app. simpl.
  rewrite ?app_nil_r, ?length_app. simpl. split; lia.
Qed.

Lemma hoare_call_at_most (b l : nat) (c : syscall) :
  no_setup (Call c) ->
  hoare (fun w : world TCPProxyServer => at_most b l (trace w)) (call c)
        (fun _ w => at_most b l (trace w)).
Proof.
  intros Hc. apply (hoare_call_keeps (fun _ t => at_most b l t)).
  - intros w Hw. now apply at_most_no_setup.
  - intros o t Ht. apply at_most_no_setup; [now split|exact Ht].
  - intros o t v Ht. apply at_most_no_setup; [now split|exact Ht].
  - intros o t Ht. apply at_most_no_setup; [now split|exact Ht].
Qed.

Lemma hoare_emit_at_most (b l : nat) (e : event) :
  no_setup e ->
  hoare (fun w : world TCPProxyServer => at_most b l (trace w)) (emit e)
        (fun _ w => at_most b l (trace w)).
Proof. intros He w Hw. simpl. now apply at_most_no_setup. Qed.

Lemma accept_body_at_most (b l : nat) (dock_socket : pyobj) :
  hoare (fun w => at_most b l (trace w)) (accept_body dock_socket)
        (fun _ w => at_most b l (trace w)).
Proof.
  unfold accept_body, _handle_socket.
  apply hoare_bind with (Q1 := fun _ w => at_most b l (trace w)); auto.
  { apply hoare_call_at_most. now split. }
  intros client_socket.
  apply hoare_bind with (Q1 := fun _ w => at_most b l (trace w)); auto.
  { apply hoare_call_at_most. now split. }
  intros server_socket.
  apply hoare_bind with (Q1 := fun _ w => at_most b l (trace w)); auto.
  { apply hoare_with_self. intros s.
    apply (hoare_conseq (fun w => at_most b l (trace w)) _ _
             (fun _ w => at_most b l (trace w)));
      [now intros w [Hw _]|auto|].
    apply hoare_call_at_most. now split. }
  intros _.
  apply hoare_bind with (Q1 := fun _ w => at_most b l (trace w)); auto.
  { apply hoare_emit_at_most. now split. }
  intros _.
  apply hoare_bind with (Q1 := fun _ w => at_most b l (trace w)); auto.
  { apply hoare_emit_at_most. now split. }
  intros _. apply hoare_with_self. intros s.
  apply (hoare_conseq (fun w => at_most b l (trace w)) _ _
           (fun _ w => at_most b l (trace w)));
    [now intros w [Hw _]|auto|].
  apply hoare_emit_at_most. now split.
Qed.

(** A turn of the outer loop begins its one [listen] and ends, when it
    returns, with the flag false. *)
Lemma listen_body_at_most (dock_socket : pyobj) :
  hoare (fun w => at_most 1 0 (trace w))
        (listen_body dock_socket)
        (fun o w => at_most 1 1 (trace w) /\
                    (forall u, o = Returned u -> _running (self w) = false)).
Proof.
  unfold listen_body.
  apply hoare_bind with (Q1 := fun _ w => at_most 1 1 (trace w)).
  - apply hoare_with_self. intros s.
    apply (hoare_call_keeps (fun _ t => at_most 1 1 t)).
    + intros w [Hw _]. now apply at_most_listen.
    + intros o t Ht. apply at_most_no_setup; [now split|exact Ht].
    + intros o t v Ht. apply at_most_no_setup; [now split|exact Ht].
    + intros o t Ht. apply at_most_no_setup; [now split|exact Ht].
  - intros _.
    apply hoare_while with (Qb := fun _ w => at_most 1 1 (trace w)); auto.
    + intros w [Hw _]. now apply accept_body_at_most.
    + intros w Hw. split; [assumption|discriminate].
    + intros w Hw. split; [assumption|discriminate].
    + intros w Hw. split; [assumption|discriminate].
    + intros w Hw. split; [assumption|discriminate].
  - intros w Hw. split; [assumption|discriminate].
  - intros w Hw. split; [assumption|discriminate].
  - intros w Hw. split; [assumption|discriminate].
Qed.

(** X5.  One socket is bound, once.  In every run [serveConnection] begins
    at most one [bind] and at most one [listen]: the outer loop around
    [listen] never makes a second turn, and nothing binds again. *)
Theorem binds_and_listens_once (srv : TCPProxyServer) (p : list reply) :
  let t := trace (snd (serveConnection (mkWorld srv p []))) in
  (List.length (bind_calls t) <= 1)%nat /\
  (List.length (listen_calls t) <= 1)%nat.
Proof.
  assert (H : at_most 1 1 (trace (snd (serveConnection (mkWorld srv p []))))).
  { unfold serveConnection.
    apply (hoare_bind (fun w => at_most 0 0 (trace w)) start_running _
             (fun _ w => at_most 0 0 (trace w))
             (fun _ w => at_most 1 1 (trace w)));
      try (intros w [H1 H2]; split; lia).
    - intros w Hw. exact Hw.
    - intros _.
      apply hoare_bind with (Q1 := fun _ w => at_most 0 0 (trace w));
        try (intros w [H1 H2]; split; lia).
      + apply hoare_with_self. intros s.
        apply (hoare_conseq (fun w => at_most 0 0 (trace w)) _ _
                 (fun _ w => at_most 0 0 (trace w)));
          [now intros w [Hw _]|auto|].
        apply hoare_emit_at_most. now split.
      + intros _. apply hoare_try_finally.
        * apply hoare_try_except
            with (Q1 := fun _ w => at_most 1 1 (trace w)); auto.
          -- apply hoare_bind with (Q1 := fun _ w => at_most 0 0 (trace w));
               try (intros w [H1 H2]; split; lia).
             { apply hoare_call_at_most. now split. }
             intros dock_socket.
             apply hoare_bind with (Q1 := fun _ w => at_most 0 0 (trace w));
               try (intros w [H1 H2]; split; lia).
             { apply hoare_call_at_most. now split. }
             intros _.
             apply hoare_bind with (Q1 := fun _ w => at_most 1 0 (trace w));
               try (intros w [H1 H2]; split; lia).
             { apply hoare_with_self. intros s.
               apply (hoare_call_keeps (fun _ t => at_most 1 0 t)).
               - intros w [Hw _]. now apply at_most_bind.
               - intros o t Ht. apply at_most_no_setup; [now split|exact Ht].
               - intros o t v Ht. apply at_most_no_setup; [now split|exact Ht].
               - intros o t Ht. apply at_most_no_setup; [now split|exact Ht]. }
             intros _.
             apply (hoare_conseq
                      (fun w => at_most 1 1 (trace w) /\
                                (_running (self w) = true ->
                                 at_most 1 0 (trace w)))
                      _ _ (fun _ w => at_most 1 1 (trace w)));
               [intros w [H1 H2]; split; [split; lia|]; intros _; now split
               |auto|].
             apply hoare_while
               with (I := fun w => at_most 1 1 (trace w) /\
                                   (_running (self w) = true ->
                                    at_most 1 0 (trace w)))
                    (Qb := fun o w =>
                             at_most 1 1 (trace w) /\
                             (forall u, o = Returned u ->
                                        _running (self w) = false)).
             ++ intros w [[_ Hw] Hrun].
                exact (listen_body_at_most dock_socket w (Hw Hrun)).
             ++ intros u w [Hw Hf]. split; [assumption|].
                intros Hrun. rewrite (Hf u eq_refl) in Hrun. discriminate.
             ++ now intros w [Hw _].
             ++ now intros w [Hw _].
             ++ now intros w [Hw _].
             ++ now intros w [Hw _] _.
             ++ now intros w [Hw _].
          -- apply hoare_bind with (Q1 := fun _ w => at_most 1 1 (trace w));
               auto.
             ++ apply hoare_emit_at_most. now split.
             ++ intros _. apply hoare_emit_at_most. now split.
        * apply hoare_with_self. intros s.
          apply (hoare_conseq (fun w => at_most 1 1 (trace w)) _ _
                   (fun _ w => at_most 1 1 (trace w)));
            [now intros w [Hw _]|auto|].
          apply hoare_emit_at_most. now split.
    - split; simpl; lia. }
  exact H.
Qed.

(** ** The configuration editor *)

(** *** Words and white space *)

Lemma words_lstrip (s : string) : PyText.words (PyText.lstrip s) = PyText.words s.
Proof.
  induction s as [|c s IH]; [reflexivity|]. simpl PyText.lstrip.
  destruct (PyText.is_space c) eqn:Hc; [|reflexivity].
  rewrite IH. unfold PyText.words. simpl. rewrite Hc.
  now destruct (PyText.words_aux s) as [w ws].
Qed.

Lemma words_aux_rstrip (s : string) :
  PyText.words_aux (PyText.rstrip s) = PyText.words_aux s.
Proof.
  induction s as [|c s IH]; [reflexivity|]. simpl.
  destruct (PyText.rstrip s) as [|c' r] eqn:Hr.
  - rewrite <- IH. simpl.
    destruct (PyText.is_space c) eqn:Hc; simpl; rewrite ?Hc; reflexivity.
  - simpl in *. now rewrite <- IH.
Qed.

Lemma words_strip (s : string) : PyText.words (PyText.strip s) = PyText.words s.
Proof.
  unfold PyText.strip, PyText.words at 1. rewrite words_aux_rstrip.
  apply words_lstrip.
Qed.

Lemma add_interface_spec (interfaceList : list string) (line : string) :
  Config.add_interface interfaceList line
  = interfaceList ++ Config.inet_address line.
Proof.
  unfold Config.add_interface, Config.inet_address. rewrite words_strip.
  destruct (PyText.words line) as [|e0 [|e1 rest]];
    try destruct (String.eqb e0 "inet"); now rewrite ?app_nil_r.
Qed.

Lemma fold_add_interface (lines interfaceList : list string) :
  fold_left Config.add_interface lines interfaceList
  = interfaceList ++ Config.inet_addresses lines.
Proof.
  revert interfaceList. induction lines as [|line lines IH];
    intros interfaceList; simpl.
  - now rewrite app_nil_r.
  - now rewrite IH, add_interface_spec, <- app_assoc.
Qed.

(** *** [runCmd] and [_getNetAddrList], run by run *)

Lemma for_each_emit {O X : Type} (f : X -> event) (l : list X) (w : world O) :
  for_each l (fun x => emit (f x)) w
  = (Returned tt, mkWorld (self w) (pending w) (trace w ++ map f l)).
Proof.
  revert w. induction l as [|x l IH]; intros w; simpl.
  - rewrite app_nil_r. now destruct w.
  - unfold mbind. cbn [emit]. rewrite IH. cbn [self pending trace].
    now rewrite <- app_assoc.
Qed.

Lemma runCmd_eq (cmd : string) (w : world Config.console) :
  Config.runCmd cmd w =
  match Config.procs (self w) with
  | [] =>
      (Blocked,
       Config.after_run (PyText.words cmd)
         (Config.logged [Log Debug ("cmd: " ++ cmd)%string] w))
  | Config.SpawnFails :: _ =>
      (Raised,
       Config.after_run (PyText.words cmd)
         (Config.logged [Log Debug ("cmd: " ++ cmd)%string] w))
  | Config.Exited rc out err :: _ =>
      (Returned (rc, PyStr.split Config.newline out,
                 PyStr.split Config.newline err),
       Config.after_run (PyText.words cmd)
         (Config.logged
            (Config.runCmd_log cmd (Config.debug_on (self w)) out err) w))
  end.
Proof.
  unfold Config.runCmd, Config._debug. unfold mbind at 1. cbn [emit].
  unfold mbind at 1. unfold Config.Popen_communicate.
  cbn [self pending trace].
  destruct (Config.procs (self w)) as [|[rc out err|] rest] eqn:Hp;
    unfold Config.after_run, Config.logged; cbn [self pending trace];
    rewrite ?Hp; cbn [tl]; try reflexivity.
  unfold mbind at 1. unfold Config._isDebugEnabled at 1.
  cbn [self Config.debug_on].
  unfold Config.runCmd_log.
  destruct (Config.debug_on (self w)).
  - unfold mbind at 1. unfold mbind at 1.
    rewrite (for_each_emit (fun l => Log Debug ("stdout: " ++ l)%string)).
    rewrite (for_each_emit (fun l => Log Debug ("stderr: " ++ l)%string)).
    cbn [self pending trace ret]. rewrite <- ?app_assoc. reflexivity.
  - unfold mbind, ret. rewrite <- ?app_assoc. reflexivity.
Qed.

(** X6.  [_getNetAddrList] runs [/sbin/ip a] and lists what it offers.  The
    command started is [/sbin/ip] with the argument [a].  When it cannot be
    started, or ends with a return code that is not 0, [_getNetAddrList]
    raises.  When it ends with 0 the list returned holds, line by line of
    its output, the second word of every line whose first word is [inet] (a
    line of one word, or beginning with [inet6], gives nothing), and then,
    always and last, the bind-all address [0.0.0.0/32]. *)
Theorem getNetAddrList_offers (w : world Config.console) :
  let r := Config._getNetAddrList w in
  Config.ran (self (snd r)) = Config.ran (self w) ++ [["/sbin/ip"; "a"]%string]
  /\ match Config.procs (self w) with
     | [] => fst r = Blocked
     | Config.SpawnFails :: _ => fst r = Raised
     | Config.Exited rc out err :: _ =>
         if (rc =? 0)%Z then
           fst r = Returned
                     (Config.inet_addresses (PyStr.split Config.newline out)
                      ++ [Config.BIND_ALL_ADDRESS])
         else fst r = Raised
     end.
Proof.
  unfold Config._getNetAddrList. cbv zeta. unfold mbind.
  rewrite runCmd_eq.
  destruct (Config.procs (self w)) as [|[rc out err|] rest];
    cbn [fst snd]; try (split; reflexivity).
  destruct (rc =? 0)%Z; cbn [fst snd ret raise];
    rewrite ?fold_add_interface; split; reflexivity.
Qed.

(** *** The loops of the editor read a line at every turn *)

Section EditorFuel.
Import Config.

Lemma reads_steady {A : Type} (m : E A) : reads m -> steady m.
Proof. intros H w. destruct (H w) as (H1 & H2 & _). now split. Qed.

Lemma steady_ret {A : Type} (a : A) : steady (ret a : E A).
Proof. intros w. simpl. split; [discriminate|lia]. Qed.

Lemma steady_raise {A : Type} : steady (raise : E A).
Proof. intros w. simpl. split; [discriminate|lia]. Qed.

Lemma steady_emit (e : event) : steady (emit e : E unit).
Proof. intros w. simpl. split; [discriminate|lia]. Qed.

Lemma steady_bind {A B : Type} (m : E A) (k : A -> E B) :
  steady m -> (forall a, steady (k a)) -> steady (mbind m k).
Proof.
  intros Hm Hk w. destruct (Hm w) as [H1 H2]. unfold mbind.
  destruct (m w) as [[a| | |] w']; simpl in *;
    try (split; [discriminate|lia]); try congruence.
  destruct (Hk a w') as [H3 H4]. split; [assumption|lia].
Qed.

Lemma reads_bind {A B : Type} (m : E A) (k : A -> E B) :
  reads m -> (forall a, steady (k a)) -> reads (mbind m k).
Proof.
  intros Hm Hk w. destruct (Hm w) as (H1 & H2 & H3). unfold mbind.
  destruct (m w) as [[a| | |] w']; simpl in *;
    try (repeat split; [discriminate|lia|discriminate]); try congruence.
  destruct (Hk a w') as [H4 H5]. specialize (H3 a eq_refl).
  repeat split; [assumption|lia|intros; lia].
Qed.

Lemma steady_then_reads {A B : Type} (m : E A) (k : A -> E B) :
  steady m -> (forall a, reads (k a)) -> reads (mbind m k).
Proof.
  intros Hm Hk w. destruct (Hm w) as [H1 H2]. unfold mbind.
  destruct (m w) as [[a| | |] w']; simpl in *;
    try (repeat split; [discriminate|lia|discriminate]); try congruence.
  destruct (Hk a w') as (H3 & H4 & H5).
  repeat split; [assumption|lia|].
  intros b Hb. specialize (H5 b Hb). lia.
Qed.

Lemma steady_for_each {X : Type} (l : list X) (body : X -> E unit) :
  (forall x, steady (body x)) -> steady (for_each l body).
Proof.
  intros Hb. induction l as [|x l IH]; simpl.
  - apply steady_ret.
  - apply steady_bind; auto.
Qed.

Lemma reads_getInput (prompt : string) : reads (getInput prompt).
Proof.
  intros w. unfold getInput. destruct (typed (self w)) as [|line rest];
    simpl; repeat split; try discriminate; intros; lia.
Qed.

Lemma steady_getIntInput (prompt : string) : steady (getIntInput prompt).
Proof.
  intros w. unfold getIntInput. destruct (numbers (self w)) as [|n rest];
    simpl; split; try discriminate; lia.
Qed.

Lemma steady_Popen (cmd : list string) : steady (Popen_communicate cmd).
Proof.
  intros w. unfold Popen_communicate.
  destruct (procs (self w)) as [|[rc out err|] rest];
    simpl; split; try discriminate; lia.
Qed.

Lemma steady_saveDict (l : list row) : steady (saveDict l).
Proof.
  intros w. unfold saveDict. destruct (writable (self w));
    simpl; split; try discriminate; lia.
Qed.

Lemma steady_get_rows : steady get_rows.
Proof. intros w. simpl. split; [discriminate|lia]. Qed.

Lemma steady_put_rows (l : list row) : steady (put_rows l).
Proof. intros w. simpl. split; [discriminate|lia]. Qed.

Lemma loop_fuel_reads {A : Type} (body : E (option A)) :
  reads body ->
  forall fuel w,
    (List.length (typed (self w)) < fuel)%nat ->
    fst (loop_fuel fuel body w) <> OutOfFuel /\
    (List.length (typed (self (snd (loop_fuel fuel body w))))
     <= List.length (typed (self w)))%nat /\
    (forall a, fst (loop_fuel fuel body w) = Returned a ->
               (List.length (typed (self (snd (loop_fuel fuel body w))))
                < List.length (typed (self w)))%nat).
Proof.
  intros Hb. induction fuel as [|n IH]; intros w Hlen; [lia|]. simpl.
  destruct (Hb w) as (H1 & H2 & H3). unfold mbind.
  destruct (body w) as [[[a|]| | |] w']; simpl in *;
    try (repeat split; [discriminate|lia|discriminate]); try congruence.
  - specialize (H3 _ eq_refl). repeat split; [discriminate|lia|intros; lia].
  - specialize (H3 _ eq_refl).
    destruct (IH w') as (H4 & H5 & H6); [lia|].
    repeat split; [assumption|lia|].
    intros a Ha. specialize (H6 a Ha). lia.
Qed.

Lemma reads_while_True {A : Type} (body : E (option A)) :
  reads body -> reads (while_True body).
Proof.
  intros Hb w. unfold while_True. apply loop_fuel_reads; [assumption|lia].
Qed.

Lemma loop_fuel_enough {A : Type} (body : E (option A)) :
  reads body ->
  forall n m w,
    (List.length (typed (self w)) < n)%nat ->
    (List.length (typed (self w)) < m)%nat ->
    loop_fuel n body w = loop_fuel m body w.
Proof.
  intros Hb. induction n as [|n IH]; intros m w Hn Hm; [lia|].
  destruct m as [|m]; [lia|]. simpl.
  destruct (Hb w) as (H1 & H2 & H3). unfold mbind.
  destruct (body w) as [[[a|]| | |] w']; simpl in *; try reflexivity.
  specialize (H3 _ eq_refl). apply IH; lia.
Qed.

(** One turn of [while True: body]. *)
Lemma while_True_unfold {A : Type} (body : E (option A)) :
  reads body ->
  forall w,
    while_True body w =
    (r <- body ;;
     match r with
     | Some a => ret a
     | None => while_True body
     end) w.
Proof.
  intros Hb w. unfold while_True at 1. simpl.
  destruct (Hb w) as (H1 & H2 & H3). unfold mbind.
  destruct (body w) as [[[a|]| | |] w']; simpl in *; try reflexivity.
  specialize (H3 _ eq_refl). unfold while_True.
  apply loop_fuel_enough; [assumption|lia|lia].
Qed.

Lemma steady_runCmd (cmd : string) : steady (runCmd cmd).
Proof.
  unfold runCmd. apply steady_bind; [apply steady_emit|]. intros _.
  apply steady_bind; [apply steady_Popen|]. intros [[rc out] err].
  apply steady_bind; [intros w; simpl; split; [discriminate|lia]|].
  intros dbg. apply steady_bind; [|intros _; apply steady_ret].
  destruct dbg; [|apply steady_ret].
  apply steady_bind; [apply steady_for_each; intros l; apply steady_emit|].
  intros _. apply steady_for_each. intros l. apply steady_emit.
Qed.

Lemma steady_getNetAddrList : steady _getNetAddrList.
Proof.
  unfold _getNetAddrList. apply steady_bind; [apply steady_runCmd|].
  intros [[rc lines] errs]. destruct (rc =? 0)%Z;
    [apply steady_ret|apply steady_raise].
Qed.

Lemma reads_getAddress (prompt : string) (defaultAddress : option string) :
  reads (_getAddress prompt defaultAddress).
Proof.
  unfold _getAddress. apply reads_bind; [apply reads_getInput|].
  intros response. destruct (String.eqb _ _); [apply steady_ret|].
  destruct (_ =? _)%nat; apply steady_ret.
Qed.

Lemma getLocalBindAddress_body_reads (defaultAddress : option string) :
  reads
    (netAddrList <- _getNetAddrList ;;
     _info "Local network interface address list" ;;
     for_each netAddrList (fun netAddr => _info netAddr) ;;
     _info ("Press enter to set the local bind address to "
            ++ PyText.of_opt defaultAddress) ;;
     response <-
       _getAddress
         "Enter the local network interface address to bind to from the above list or 'q' to quit."
         defaultAddress ;;
     match response with
     | None => ret (Some None)
     | Some r =>
         if PyText.mem_str r netAddrList then ret (Some (Some r))
         else
           _error (r ++ " is not a local interface address.") ;;
           ret None
     end).
Proof.
  apply steady_then_reads; [apply steady_getNetAddrList|]. intros netAddrList.
  apply steady_then_reads; [apply steady_emit|]. intros _.
  apply steady_then_reads;
    [apply steady_for_each; intros a; apply steady_emit|]. intros _.
  apply steady_then_reads; [apply steady_emit|]. intros _.
  apply reads_bind; [apply reads_getAddress|].
  intros [r|]; [|apply steady_ret].
  destruct (PyText.mem_str r netAddrList); [apply steady_ret|].
  apply steady_bind; [apply steady_emit|]. intros _. apply steady_ret.
Qed.

Lemma reads_getLocalBindAddress (defaultAddress : option string) :
  reads (_getLocalBindAddress defaultAddress).
Proof. apply reads_while_True, getLocalBindAddress_body_reads. Qed.

End EditorFuel.

Section EditorFuelWithInt.
Import Config.
Variable py_int : string -> option Z.

Lemma getPort_body_reads (prompt : string) (defaultPort : option Z) :
  reads
    (response <- getInput prompt ;;
     match defaultPort with
     | Some port =>
         if (String.length response =? 0)%nat then ret (Some port)
         else
           match py_int response with
           | Some port => ret (Some port)
           | None =>
               _error (response ++ " is an invalid port (1-65535 are valid).") ;;
               ret None
           end
     | None =>
         match py_int response with
         | Some port => ret (Some port)
         | None =>
             _error (response ++ " is an invalid port (1-65535 are valid).") ;;
             ret None
         end
     end).
Proof.
  apply reads_bind; [apply reads_getInput|]. intros response.
  destruct defaultPort as [d|];
    [destruct (_ =? _)%nat; [apply steady_ret|]|];
    (destruct (py_int response); [apply steady_ret|];
     apply steady_bind; [apply steady_emit|]; intros _; apply steady_ret).
Qed.

Lemma reads_getPort (prompt : string) (defaultPort : option Z) :
  reads (_getPort py_int prompt defaultPort).
Proof. apply reads_while_True, getPort_body_reads. Qed.

Lemma reads_addProxy : reads (_addProxy py_int).
Proof.
  unfold _addProxy.
  apply reads_bind; [apply reads_getLocalBindAddress|]. intros a.
  apply steady_bind; [apply reads_steady, reads_getPort|]. intros lp.
  apply steady_bind; [apply reads_steady, reads_getInput|]. intros d.
  apply steady_bind; [apply reads_steady, reads_getPort|]. intros dp.
  apply steady_bind; [apply steady_get_rows|]. intros l. apply steady_put_rows.
Qed.

Lemma steady_editProxy : steady (_editProxy py_int).
Proof.
  unfold _editProxy.
  apply steady_bind; [apply steady_getIntInput|]. intros id.
  apply steady_bind; [apply steady_get_rows|]. intros l.
  destruct (valid_id id l); [|apply steady_ret].
  destruct (nth_error l (Z.to_nat (id - 1))) as [attrList|];
    [|apply steady_raise].
  apply steady_bind; [apply reads_steady, reads_getLocalBindAddress|].
  intros a.
  apply steady_bind; [apply reads_steady, reads_getPort|]. intros lp.
  apply steady_bind; [apply reads_steady, reads_getAddress|]. intros _.
  apply steady_bind; [apply reads_steady, reads_getPort|]. intros dp.
  apply steady_bind; [apply steady_get_rows|]. intros l'.
  destruct (set_item _ _ l'); [apply steady_put_rows|apply steady_raise].
Qed.

Lemma steady_deleteProxy : steady _deleteProxy.
Proof.
  unfold _deleteProxy.
  apply steady_bind; [apply steady_getIntInput|]. intros id.
  apply steady_bind; [apply steady_get_rows|]. intros l.
  destruct (valid_id id l); [|apply steady_ret].
  destruct (del_item _ l); [|apply steady_raise].
  apply steady_bind; [apply steady_put_rows|]. intros _. apply steady_emit.
Qed.

Lemma steady_save : steady _save.
Proof.
  unfold _save. apply steady_bind; [apply steady_get_rows|]. intros l.
  apply steady_bind; [apply steady_saveDict|]. intros _. apply steady_emit.
Qed.

Lemma steady_show_rows (l : list row) : forall id, steady (show_rows id l).
Proof.
  induction l as [|r l IH]; intros id; simpl; [apply steady_ret|].
  destruct (row_line id r); [|apply steady_raise].
  apply steady_bind; [apply steady_emit|]. intros _. apply IH.
Qed.

Lemma steady_showProxyDict : steady _showProxyDict.
Proof.
  unfold _showProxyDict. destruct titleHeaderLine; [|apply steady_raise].
  apply steady_bind; [apply steady_emit|]. intros _.
  apply steady_bind; [apply steady_emit|]. intros _.
  apply steady_bind; [apply steady_emit|]. intros _.
  apply steady_bind; [apply steady_get_rows|]. intros l.
  apply steady_bind; [apply steady_show_rows|]. intros _. apply steady_emit.
Qed.

Lemma config_body_reads :
  reads
    (_showProxyDict ;;
     response <-
       getInput "A: Add, E: Edit, D: Delete, S: Save or Q: to quit." ;;
     let response := PyText.lower response in
     if String.eqb response "a" then _addProxy py_int ;; ret None
     else if String.eqb response "e" then _editProxy py_int ;; ret None
     else if String.eqb response "d" then _deleteProxy ;; ret None
     else if String.eqb response "s" then _save ;; ret None
     else if String.eqb response "q" then ret (Some tt)
     else ret None).
Proof.
  apply steady_then_reads; [apply steady_showProxyDict|]. intros _.
  apply reads_bind; [apply reads_getInput|]. intros response. cbv zeta.
  destruct (String.eqb _ "a");
    [apply steady_bind;
     [apply reads_steady, reads_addProxy|intros _; apply steady_ret]|].
  destruct (String.eqb _ "e");
    [apply steady_bind; [apply steady_editProxy|intros _; apply steady_ret]|].
  destruct (String.eqb _ "d");
    [apply steady_bind; [apply steady_deleteProxy|intros _; apply steady_ret]|].
  destruct (String.eqb _ "s");
    [apply steady_bind; [apply steady_save|intros _; apply steady_ret]|].
  destruct (String.eqb _ "q"); apply steady_ret.
Qed.

Lemma reads_config : reads (config py_int).
Proof. apply reads_while_True, config_body_reads. Qed.

(** The fuel of [while_True] is enough: the editor never stops for lack of
    it. *)
Lemma config_fuel (w : world console) : fst (config py_int w) <> OutOfFuel.
Proof. apply reads_config. Qed.

End EditorFuelWithInt.

(** *** The prompts, answer by answer *)

Lemma getInput_eq (prompt : string) (w : world Config.console) :
  Config.getInput prompt w =
  (match Config.typed (self w) with
   | [] => Blocked
   | line :: _ => Returned line
   end, Config.answered prompt w).
Proof.
  unfold Config.getInput, Config.answered. cbv zeta.
  now destruct (Config.typed (self w)).
Qed.

Lemma getIntInput_eq (prompt : string) (w : world Config.console) :
  Config.getIntInput prompt w =
  (match Config.numbers (self w) with
   | [] => Blocked
   | n :: _ => Returned n
   end, Config.numbered prompt w).
Proof.
  unfold Config.getIntInput, Config.numbered. cbv zeta.
  now destruct (Config.numbers (self w)).
Qed.

(** X8.  [_getPort], answer by answer, for any prompt and default.  With
    nothing typed it waits.  An empty line, when there is a default, gives
    the default.  Any other line is handed to [int]: whatever integer [int]
    reads is returned as the port, with no test of its range (the message
    below names 1-65535, the code does not check it); when [int] raises
    [ValueError] the error ["... is an invalid port (1-65535 are valid)."]
    is logged and the prompt is shown again. *)
Theorem getPort_steps (py_int : string -> option Z) (prompt : string)
  (defaultPort : option Z) (w : world Config.console) :
  let ask := Config._getPort py_int prompt defaultPort in
  match Config.typed (self w), defaultPort with
  | [], _ => ask w = (Blocked, Config.answered prompt w)
  | EmptyString :: _, Some port =>
      ask w = (Returned port, Config.answered prompt w)
  | line :: _, _ =>
      match py_int line with
      | Some port => ask w = (Returned port, Config.answered prompt w)
      | None =>
          ask w =
          ask (Config.logged
                 [Log Error
                    (line ++ " is an invalid port (1-65535 are valid).")%string]
                 (Config.answered prompt w))
      end
  end.
Proof.
  intros ask. subst ask.
  assert (Hun : forall w',
             Config._getPort py_int prompt defaultPort w' =
             (r <- _ ;;
              match r with
              | Some a => ret a
              | None => Config._getPort py_int prompt defaultPort
              end) w')
    by exact (while_True_unfold _
                (getPort_body_reads py_int prompt defaultPort)).
  destruct (Config.typed (self w)) as [|line rest] eqn:Ht.
  - destruct defaultPort; rewrite Hun; unfold mbind; rewrite getInput_eq, Ht;
      reflexivity.
  - destruct defaultPort as [d|].
    + destruct line as [|c line].
      * rewrite Hun. unfold mbind. rewrite getInput_eq, Ht. reflexivity.
      * destruct (py_int (String c line)) eqn:Hp; rewrite Hun at 1;
          unfold mbind; rewrite getInput_eq, Ht; cbn [String.length Nat.eqb];
          rewrite Hp; reflexivity.
    + destruct line as [|c line];
        (destruct (py_int _) eqn:Hp; rewrite Hun at 1; unfold mbind;
         rewrite getInput_eq, Ht; rewrite Hp; reflexivity).
Qed.

(** [int] reads 70000: it is taken as the port. *)
Example port_70000_is_accepted :
  fst (Config._getPort Config.plain_int "Enter the local listen port" None
         (mkWorld (Config.mkConsole [] ["70000"%string] [] [] false true
                     [] [] []) [] []))
  = Returned 70000.
Proof. reflexivity. Qed.

(** *** Deleting and replacing a row *)

Lemma del_item_spec {X : Type} (l : list X) :
  forall i, (i < List.length l)%nat ->
            Config.del_item i l = Some (firstn i l ++ skipn (S i) l).
Proof.
  induction l as [|x l IH]; intros i Hi; [simpl in Hi; lia|].
  destruct i as [|i]; [reflexivity|].
  change (Config.del_item (S i) (x :: l))
    with (match Config.del_item i l with
          | Some r => Some (x :: r)
          | None => None
          end).
  rewrite IH by (simpl in Hi; lia). reflexivity.
Qed.

Lemma valid_id_spec {X : Type} (id : Z) (l : list X) :
  Config.valid_id id l = true ->
  (Z.to_nat (id - 1) < List.length l)%nat /\
  S (Z.to_nat (id - 1)) = Z.to_nat id.
Proof.
  unfold Config.valid_id. intros H. apply andb_true_iff in H as [H1 H2].
  apply Z.gtb_lt in H1. apply Z.leb_le in H2. lia.
Qed.

Lemma deleteProxy_eq (w : world Config.console) :
  Config._deleteProxy w =
  let w1 := Config.numbered "Enter the ID of the row to delete" w in
  let l := Config.rows (self w) in
  match Config.numbers (self w) with
  | [] => (Blocked, w1)
  | id :: _ =>
      if Config.valid_id id l then
        (Returned tt,
         Config.logged [Log Info ("Removed row " ++ PyStr.of_int id)%string]
           (Config.with_rows
              (firstn (Z.to_nat (id - 1)) l ++ skipn (Z.to_nat id) l) w1))
      else (Returned tt, w1)
  end.
Proof.
  cbv zeta. unfold Config._deleteProxy.
  unfold mbind at 1. rewrite getIntInput_eq.
  destruct (Config.numbers (self w)) as [|id ns]; [reflexivity|].
  unfold mbind at 1. cbn [Config.get_rows fst snd].
  change (Config.rows (self (Config.numbered _ w))) with (Config.rows (self w)).
  destruct (Config.valid_id id (Config.rows (self w))) eqn:Hv; [|reflexivity].
  destruct (valid_id_spec _ _ Hv) as [Hlt HS].
  rewrite (del_item_spec _ _ Hlt), HS. reflexivity.
Qed.

(** X9.  [_deleteProxy] removes the row asked for and nothing else.  When
    the number entered is between 1 and the length of the list, the list
    becomes the rows before that one followed by the rows after it, in
    their order, and ["Removed row n"] is logged; for any other number (0,
    a negative one, one past the end) the list stays as it is and nothing
    is logged.  In both cases [_deleteProxy] returns, and it never writes
    the file. *)
Theorem deleteProxy_removes_one_row (w : world Config.console) :
  let r := Config._deleteProxy w in
  let l := Config.rows (self w) in
  Config.saved (self (snd r)) = Config.saved (self w) /\
  match Config.numbers (self w) with
  | [] => fst r = Blocked
  | id :: _ =>
      fst r = Returned tt /\
      if Config.valid_id id l then
        Config.rows (self (snd r))
        = firstn (Z.to_nat (id - 1)) l ++ skipn (Z.to_nat id) l /\
        trace (snd r)
        = trace w ++ [Log Info ("Removed row " ++ PyStr.of_int id)%string]
      else
        Config.rows (self (snd r)) = l /\ trace (snd r) = trace w
  end.
Proof.
  cbv zeta. rewrite deleteProxy_eq. cbv zeta.
  destruct (Config.numbers (self w)) as [|id ns]; [split; reflexivity|].
  destruct (Config.valid_id id (Config.rows (self w)));
    repeat split; reflexivity.
Qed.

(** *** The table *)










(** *** What the prompts leave alone *)

Lemma hoare_loop_fuel {A : Type} (I : world Config.console -> Prop)
  (body : Config.E (option A))
  (Qb : outcome (option A) -> world Config.console -> Prop)
  (Q : outcome A -> world Config.console -> Prop) :
  hoare I body Qb ->
  (forall w, Qb (Returned None) w -> I w) ->
  (forall a w, Qb (Returned (Some a)) w -> Q (Returned a) w) ->
  (forall w, Qb Raised w -> Q Raised w) ->
  (forall w, Qb Blocked w -> Q Blocked w) ->
  (forall w, Qb OutOfFuel w -> Q OutOfFuel w) ->
  (forall w, I w -> Q OutOfFuel w) ->
  forall fuel, hoare I (Config.loop_fuel fuel body) Q.
Proof.
  intros Hb Hn Hs Hr Hbl Hf Hz fuel.
  induction fuel as [|n IH]; intros w Hw; simpl.
  - now apply Hz.
  - assert (Hbw := Hb w Hw). unfold mbind.
    destruct (body w) as [[[a|]| | |] w']; simpl in *; auto.
Qed.

Lemma hoare_while_True {A : Type} (I : world Config.console -> Prop)
  (body : Config.E (option A))
  (Qb : outcome (option A) -> world Config.console -> Prop)
  (Q : outcome A -> world Config.console -> Prop) :
  hoare I body Qb ->
  (forall w, Qb (Returned None) w -> I w) ->
  (forall a w, Qb (Returned (Some a)) w -> Q (Returned a) w) ->
  (forall w, Qb Raised w -> Q Raised w) ->
  (forall w, Qb Blocked w -> Q Blocked w) ->
  (forall w, Qb OutOfFuel w -> Q OutOfFuel w) ->
  (forall w, I w -> Q OutOfFuel w) ->
  hoare I (Config.while_True body) Q.
Proof.
  intros Hb Hn Hs Hr Hbl Hf Hz w Hw. unfold Config.while_True.
  now apply (hoare_loop_fuel I body Qb Q Hb Hn Hs Hr Hbl Hf Hz _ w).
Qed.

Lemma advance_refl (c : Config.console) : Config.advance c c.
Proof. repeat split; now exists 0%nat. Qed.

Lemma skipn_1_tl {X : Type} (l : list X) : tl l = skipn 1 l.
Proof. now destruct l. Qed.

Section Respect.
Import Config.
Variable K : console -> Prop.
Hypothesis HK : respects K.

Lemma keeps_while_True {A : Type} (body : E (option A)) :
  keeps (holds K) body -> keeps (holds K) (while_True body).
Proof.
  intros Hb. apply hoare_while_True with (Qb := fun _ => lift (holds K)); auto.
Qed.

Lemma keeps_K_emit (e : event) : keeps (holds K) (emit e).
Proof. intros w Hw. exact Hw. Qed.

Lemma keeps_K_getInput (prompt : string) : keeps (holds K) (getInput prompt).
Proof.
  intros w Hw. rewrite getInput_eq. cbn [fst snd]. unfold lift, holds in *.
  apply (HK (self w)); [|exact Hw]. unfold answered. cbn [self].
  repeat split; cbn; try (now exists 0%nat).
  exists 1%nat. apply skipn_1_tl.
Qed.

Lemma keeps_K_getIntInput (prompt : string) : keeps (holds K) (getIntInput prompt).
Proof.
  intros w Hw. rewrite getIntInput_eq. cbn [fst snd]. unfold lift, holds in *.
  apply (HK (self w)); [|exact Hw]. unfold numbered. cbn [self].
  repeat split; cbn; try (now exists 0%nat).
  exists 1%nat. apply skipn_1_tl.
Qed.

Lemma keeps_K_runCmd (cmd : string) : keeps (holds K) (runCmd cmd).
Proof.
  intros w Hw. rewrite runCmd_eq. unfold lift, holds in *.
  assert (Ha : forall evs,
             K (self (after_run (PyText.words cmd) (logged evs w)))).
  { intros evs. apply (HK (self w)); [|exact Hw].
    unfold after_run, logged. cbn [self].
    repeat split; cbn; try (now exists 0%nat).
    exists 1%nat. apply skipn_1_tl. }
  destruct (procs (self w)) as [|[rc out err|] rest]; cbn [fst snd]; apply Ha.
Qed.

Lemma keeps_K_getNetAddrList : keeps (holds K) _getNetAddrList.
Proof.
  unfold _getNetAddrList. apply keeps_bind; [apply keeps_K_runCmd|].
  intros [[rc lines] errs]. destruct (rc =? 0)%Z; intros w Hw; exact Hw.
Qed.

Lemma keeps_K_getAddress (prompt : string) (defaultAddress : option string) :
  keeps (holds K) (_getAddress prompt defaultAddress).
Proof.
  unfold _getAddress. apply keeps_bind; [apply keeps_K_getInput|].
  intros response. destruct (String.eqb _ _); [apply keeps_ret|].
  destruct (_ =? _)%nat; apply keeps_ret.
Qed.

Lemma keeps_K_getLocalBindAddress (defaultAddress : option string) :
  keeps (holds K) (_getLocalBindAddress defaultAddress).
Proof.
  unfold _getLocalBindAddress. apply keeps_while_True.
  apply keeps_bind; [apply keeps_K_getNetAddrList|]. intros netAddrList.
  apply keeps_bind; [apply keeps_K_emit|]. intros _.
  apply keeps_bind;
    [apply keeps_for_each; intros a; apply keeps_K_emit|]. intros _.
  apply keeps_bind; [apply keeps_K_emit|]. intros _.
  apply keeps_bind; [apply keeps_K_getAddress|].
  intros [r|]; [|apply keeps_ret].
  destruct (PyText.mem_str r netAddrList); [apply keeps_ret|].
  apply keeps_bind; [apply keeps_K_emit|]. intros _. apply keeps_ret.
Qed.

Lemma keeps_K_show_rows (l : list row) :
  forall id, keeps (holds K) (show_rows id l).
Proof.
  induction l as [|r l IH]; intros id; simpl; [apply keeps_ret|].
  destruct (row_line id r); [|intros w Hw; exact Hw].
  apply keeps_bind; [apply keeps_K_emit|]. intros _. apply IH.
Qed.

Lemma keeps_K_showProxyDict : keeps (holds K) _showProxyDict.
Proof.
  unfold _showProxyDict. destruct titleHeaderLine; [|intros w Hw; exact Hw].
  apply keeps_bind; [apply keeps_K_emit|]. intros _.
  apply keeps_bind; [apply keeps_K_emit|]. intros _.
  apply keeps_bind; [apply keeps_K_emit|]. intros _.
  apply keeps_bind; [intros w Hw; exact Hw|]. intros l.
  apply keeps_bind; [apply keeps_K_show_rows|]. intros _. apply keeps_K_emit.
Qed.

Variable py_int : string -> option Z.

Lemma keeps_K_getPort (prompt : string) (defaultPort : option Z) :
  keeps (holds K) (_getPort py_int prompt defaultPort).
Proof.
  unfold _getPort. apply keeps_while_True.
  apply keeps_bind; [apply keeps_K_getInput|]. intros response.
  destruct defaultPort as [d|];
    [destruct (_ =? _)%nat; [apply keeps_ret|]|];
    (destruct (py_int response); [apply keeps_ret|];
     apply keeps_bind; [apply keeps_K_emit|]; intros _; apply keeps_ret).
Qed.

Hypothesis HR : rows_free K.

Lemma keeps_K_put_rows (l : list row) : keeps (holds K) (put_rows l).
Proof. intros w Hw. apply HR, Hw. Qed.

Lemma keeps_K_addProxy : keeps (holds K) (_addProxy py_int).
Proof.
  unfold _addProxy.
  apply keeps_bind; [apply keeps_K_getLocalBindAddress|]. intros a.
  apply keeps_bind; [apply keeps_K_getPort|]. intros lp.
  apply keeps_bind; [apply keeps_K_getInput|]. intros d.
  apply keeps_bind; [apply keeps_K_getPort|]. intros dp.
  apply keeps_bind; [intros w Hw; exact Hw|]. intros l.
  apply keeps_K_put_rows.
Qed.

Lemma keeps_K_editProxy : keeps (holds K) (_editProxy py_int).
Proof.
  unfold _editProxy.
  apply keeps_bind; [apply keeps_K_getIntInput|]. intros id.
  apply keeps_bind; [intros w Hw; exact Hw|]. intros l.
  destruct (valid_id id l); [|apply keeps_ret].
  destruct (nth_error l (Z.to_nat (id - 1))) as [attrList|];
    [|intros w Hw; exact Hw].
  apply keeps_bind; [apply keeps_K_getLocalBindAddress|]. intros a.
  apply keeps_bind; [apply keeps_K_getPort|]. intros lp.
  apply keeps_bind; [apply keeps_K_getAddress|]. intros _.
  apply keeps_bind; [apply keeps_K_getPort|]. intros dp.
  apply keeps_bind; [intros w Hw; exact Hw|]. intros l'.
  destruct (set_item _ _ l'); [apply keeps_K_put_rows|intros w Hw; exact Hw].
Qed.

Lemma keeps_K_deleteProxy : keeps (holds K) _deleteProxy.
Proof.
  unfold _deleteProxy.
  apply keeps_bind; [apply keeps_K_getIntInput|]. intros id.
  apply keeps_bind; [intros w Hw; exact Hw|]. intros l.
  destruct (valid_id id l); [|apply keeps_ret].
  destruct (del_item _ l); [|intros w Hw; exact Hw].
  apply keeps_bind; [apply keeps_K_put_rows|]. intros _. apply keeps_K_emit.
Qed.

End Respect.

(** *** Adding and editing a row *)

Lemma set_item_spec {X : Type} (v : X) (l : list X) :
  forall i l',
    Config.set_item i v l = Some l' ->
    List.length l' = List.length l /\
    (forall j, j <> i -> nth_error l' j = nth_error l j) /\
    (forall (Y : Type) (f : X -> Y) x,
       nth_error l i = Some x -> f v = f x -> map f l' = map f l).
Proof.
  induction l as [|y l IH]; intros i l' H; [destruct i; discriminate|].
  destruct i as [|i].
  - injection H as <-. repeat split.
    + intros [|j] Hj; [congruence|reflexivity].
    + intros Y f x Hx Hf. injection Hx as <-. simpl. now rewrite Hf.
  - change (Config.set_item (S i) v (y :: l))
      with (match Config.set_item i v l with
            | Some r => Some (y :: r)
            | None => None
            end) in H.
    destruct (Config.set_item i v l) as [r|] eqn:Hr; [|discriminate].
    injection H as <-. destruct (IH i r Hr) as (Hl & Hn & Hm).
    repeat split.
    + simpl. now rewrite Hl.
    + intros [|j] Hj; [reflexivity|]. simpl. apply Hn. congruence.
    + intros Y f x Hx Hf. simpl. f_equal. now apply (Hm Y f x).
Qed.

Lemma edited_refl (l : list Config.row) (target : option Z) :
  Config.edited l target l.
Proof. repeat split. Qed.

Lemma fixed_respects (l : list Config.row) (s : list (list Config.row)) :
  Config.respects (fun c => Config.rows c = l /\ Config.saved c = s).
Proof.
  intros c c' (Hr & Hs & _) [H1 H2]. split; congruence.
Qed.

(** X10.  [_editProxy] never changes a destination address.  In every run,
    however it ends, the list keeps its length, every row keeps its
    destination address (the answer to the destination prompt is read and
    dropped: the row written back holds the old one), every row but the one
    whose number was entered is what it was, and the file is not written. *)
Theorem editProxy_keeps_destinations (py_int : string -> option Z)
  (w : world Config.console) :
  let r := Config._editProxy py_int w in
  Config.saved (self (snd r)) = Config.saved (self w) /\
  Config.edited (Config.rows (self w)) (hd_error (Config.numbers (self w)))
    (Config.rows (self (snd r))).
Proof.
  intros r. assert (Hr : r = Config._editProxy py_int w) by reflexivity.
  clearbody r. unfold Config._editProxy in Hr.
  unfold mbind at 1 in Hr. rewrite getIntInput_eq in Hr.
  destruct (Config.numbers (self w)) as [|id ns] eqn:Hnum.
  { subst r. split; [reflexivity|apply edited_refl]. }
  unfold mbind at 1 in Hr. cbn [Config.get_rows fst snd] in Hr.
  change (Config.rows (self (Config.numbered _ w)))
    with (Config.rows (self w)) in Hr.
  set (l := Config.rows (self w)) in *.
  set (s := Config.saved (self w)) in *.
  set (w1 := Config.numbered "Enter the ID of the row to edit" w) in *.
  cbn [hd_error].
  destruct (Config.valid_id id l) eqn:Hv;
    [|subst r; split; [reflexivity|apply edited_refl]].
  destruct (valid_id_spec _ _ Hv) as [Hlt HS].
  destruct (nth_error l (Z.to_nat (id - 1))) as [attrList|] eqn:Hnth;
    [|subst r; split; [reflexivity|apply edited_refl]].
  pose (K := fun c => Config.rows c = l /\ Config.saved c = s).
  assert (HK : Config.respects K) by apply fixed_respects.
  assert (Hw1 : lift (Config.holds K) w1) by (split; reflexivity).
  assert (Hweak : forall w', lift (Config.holds K) w' ->
                             Config.saved (self w') = s /\
                             Config.edited l (Some id) (Config.rows (self w'))).
  { intros w' [H1 H2]. split; [assumption|]. rewrite H1. apply edited_refl. }
  subst r. clearbody w1.
  match goal with
  | |- context [snd (?m w1)] =>
      cut (hoare (lift (Config.holds K)) m
             (fun _ w' =>
                Config.saved (self w') = s /\
                Config.edited l (Some id) (Config.rows (self w'))));
        [intros H; exact (H w1 Hw1)|]
  end.
  apply hoare_bind with (Q1 := fun _ => lift (Config.holds K)); auto.
  { now apply keeps_K_getLocalBindAddress. }
  intros bindAddress.
  apply hoare_bind with (Q1 := fun _ => lift (Config.holds K)); auto.
  { now apply keeps_K_getPort. }
  intros listenPort.
  apply hoare_bind with (Q1 := fun _ => lift (Config.holds K)); auto.
  { now apply keeps_K_getAddress. }
  intros _.
  apply hoare_bind with (Q1 := fun _ => lift (Config.holds K)); auto.
  { now apply keeps_K_getPort. }
  intros destPort w' [H1 H2]. unfold mbind. cbn [Config.get_rows fst snd].
  rewrite H1.
  destruct (Config.set_item (Z.to_nat (id - 1)) _ l) as [l'|] eqn:Hset.
  - cbn [Config.put_rows fst snd self Config.saved Config.rows].
    split; [assumption|].
    destruct (set_item_spec _ _ _ _ Hset) as (Hl & Hn & Hm).
    repeat split; [assumption| |].
    + now apply (Hm _ Config.row2 attrList).
    + intros j Hj. apply Hn. lia.
  - cbn [raise fst snd]. apply Hweak. now split.
Qed.

(** X11.  [_addProxy] puts one row at the end of the list, or leaves the
    list alone.  When it returns, the list is the old list followed by one
    row; when it does not (a prompt is never answered, [ip a] fails) the
    list is what it was.  The file is not written either way. *)
Theorem addProxy_appends_a_row (py_int : string -> option Z)
  (w : world Config.console) :
  let r := Config._addProxy py_int w in
  Config.saved (self (snd r)) = Config.saved (self w) /\
  ((fst r = Returned tt /\
    exists attrList,
      Config.rows (self (snd r)) = Config.rows (self w) ++ [attrList]) \/
   (fst r <> Returned tt /\
    Config.rows (self (snd r)) = Config.rows (self w))).
Proof.
  cbv zeta.
  set (l := Config.rows (self w)). set (s := Config.saved (self w)).
  pose (K := fun c => Config.rows c = l /\ Config.saved c = s).
  assert (HK : Config.respects K) by apply fixed_respects.
  assert (Hw : lift (Config.holds K) w) by (split; reflexivity).
  assert (Hweak : forall (o : outcome unit) w',
             o <> Returned tt -> lift (Config.holds K) w' ->
             Config.saved (self w') = s /\
             ((o = Returned tt /\
               exists attrList, Config.rows (self w') = l ++ [attrList]) \/
              (o <> Returned tt /\ Config.rows (self w') = l))).
  { intros o w' Ho [H1 H2]. split; [assumption|]. right. now split. }
  cut (hoare (lift (Config.holds K)) (Config._addProxy py_int)
         (fun o w' =>
            Config.saved (self w') = s /\
            ((o = Returned tt /\
              exists attrList, Config.rows (self w') = l ++ [attrList]) \/
             (o <> Returned tt /\ Config.rows (self w') = l))));
    [intros H; exact (H w Hw)|].
  unfold Config._addProxy.
  apply hoare_bind with (Q1 := fun _ => lift (Config.holds K));
    try (intros w'; apply Hweak; discriminate).
  { now apply keeps_K_getLocalBindAddress. }
  intros localBindAddress.
  apply hoare_bind with (Q1 := fun _ => lift (Config.holds K));
    try (intros w'; apply Hweak; discriminate).
  { now apply keeps_K_getPort. }
  intros listenPort.
  apply hoare_bind with (Q1 := fun _ => lift (Config.holds K));
    try (intros w'; apply Hweak; discriminate).
  { now apply keeps_K_getInput. }
  intros destAddr.
  apply hoare_bind with (Q1 := fun _ => lift (Config.holds K));
    try (intros w'; apply Hweak; discriminate).
  { now apply keeps_K_getPort. }
  intros destPort w' [H1 H2]. unfold mbind.
  cbn [Config.get_rows Config.put_rows fst snd self Config.saved Config.rows].
  split; [assumption|]. left. split; [reflexivity|].
  rewrite H1. now eexists.
Qed.

(** *** What leaves the editor: the file and the bind address *)

Lemma Forall_skipn_of {X : Type} (P : X -> Prop) (n : nat) :
  forall l, Forall P l -> Forall P (skipn n l).
Proof.
  induction n as [|n IH]; intros l Hl; [exact Hl|].
  destruct Hl as [|x l Hx Hl]; [constructor|]. simpl. now apply IH.
Qed.

Lemma incl_skipn_of {X : Type} (n : nat) :
  forall l : list X, incl (skipn n l) l.
Proof.
  induction n as [|n IH]; intros l; [apply incl_refl|].
  destruct l as [|x l]; [apply incl_refl|]. simpl.
  apply incl_tl, IH.
Qed.

Lemma unsaved_respects (P : string -> Prop) (s : list (list Config.row)) :
  Config.respects
    (fun c => Config.saved c = s /\ Forall P (Config.typed c)).
Proof.
  intros c c' (_ & Hs & _ & _ & (n & Ht) & _) [H1 H2]. split; [congruence|].
  rewrite Ht. now apply Forall_skipn_of.
Qed.

Lemma getInput_head (K : Config.console -> Prop) (P : string -> Prop)
  (prompt : string) :
  Config.respects K ->
  hoare (fun w => lift (Config.holds K) w /\ Forall P (Config.typed (self w)))
        (Config.getInput prompt)
        (fun o w => lift (Config.holds K) w /\
                    forall line, o = Returned line -> P line).
Proof.
  intros HK w [Hw HP]. split; [now apply keeps_K_getInput|].
  rewrite getInput_eq. cbn [fst].
  destruct (Config.typed (self w)) as [|line' rest]; [discriminate|].
  intros line H. injection H as <-. now inversion HP.
Qed.

(** X13.  [config] writes the file only on the command [s].  When no line
    the user types is [s] or [S] the file is not written, whatever else is
    typed and however [config] ends: adding, editing and deleting change
    the list in memory only. *)
Theorem config_writes_only_on_s (py_int : string -> option Z)
  (w : world Config.console) :
  Forall (fun line => PyText.lower line <> "s"%string)
    (Config.typed (self w)) ->
  Config.saved (self (snd (Config.config py_int w))) = Config.saved (self w).
Proof.
  intros HP.
  set (s := Config.saved (self w)).
  set (P := fun line => PyText.lower line <> "s"%string) in *.
  pose (K := fun c => Config.saved c = s /\ Forall P (Config.typed c)).
  assert (HK : Config.respects K) by apply unsaved_respects.
  assert (HR : Config.rows_free K) by (intros c l H; exact H).
  assert (Hw : lift (Config.holds K) w) by (split; [reflexivity|exact HP]).
  cut (keeps (Config.holds K) (Config.config py_int)).
  { intros H. exact (proj1 (H w Hw)). }
  unfold Config.config. apply keeps_while_True.
  apply keeps_bind; [now apply keeps_K_showProxyDict|]. intros _.
  apply hoare_bind
    with (Q1 := fun o w' => lift (Config.holds K) w' /\
                            forall line, o = Returned line -> P line);
    try (now intros w' [H _]).
  - intros w' Hw'. apply (getInput_head K P); [assumption|].
    split; [exact Hw'|exact (proj2 Hw')].
  - intros response. cbv zeta.
    destruct (String.eqb (PyText.lower response) "a");
      [intros w' [H _]; revert w' H;
       apply keeps_bind; [now apply keeps_K_addProxy|intros _; apply keeps_ret]|].
    destruct (String.eqb (PyText.lower response) "e");
      [intros w' [H _]; revert w' H;
       apply keeps_bind; [now apply keeps_K_editProxy|intros _; apply keeps_ret]|].
    destruct (String.eqb (PyText.lower response) "d");
      [intros w' [H _]; revert w' H;
       apply keeps_bind;
       [now apply keeps_K_deleteProxy|intros _; apply keeps_ret]|].
    destruct (String.eqb (PyText.lower response) "s") eqn:Hs.
    + intros w' [_ H]. apply String.eqb_eq in Hs.
      now elim (H response eq_refl).
    + destruct (String.eqb (PyText.lower response) "q");
        intros w' [H _]; exact H.
Qed.

Lemma config_writes_only_on_s_witness :
  Config.saved
    (self (snd (Config.config Config.plain_int
                  (mkWorld
                     (Config.mkConsole
                        [Config.mkRow (Some "0.0.0.0/32"%string) 9000
                           "127.0.0.1" 9001]
                        ["d"%string; "Q"%string] [1] [] false true [] [] [])
                     [] []))))
  = [].
Proof.
  apply (config_writes_only_on_s Config.plain_int
           (mkWorld
              (Config.mkConsole
                 [Config.mkRow (Some "0.0.0.0/32"%string) 9000
                    "127.0.0.1" 9001]
                 ["d"%string; "Q"%string] [1] [] false true [] [] [])
              [] [])).
  repeat constructor; discriminate.
Defined.





Lemma typed_respects (T0 : list string) :
  Config.respects (fun c => incl (Config.typed c) T0).
Proof.
  intros c c' (_ & _ & _ & _ & (n & Ht) & _) H. rewrite Ht.
  eapply incl_tran; [apply incl_skipn_of|exact H].
Qed.

Lemma save_reads_no_line (w : world Config.console) :
  Config.typed (self (snd (Config._save w))) = Config.typed (self w).
Proof.
  unfold Config._save, Config.get_rows, Config.saveDict, Config._info, emit,
    mbind.
  cbn [fst snd self]. now destruct (Config.writable (self w)).
Qed.

Lemma keeps_then_none {A B : Type} (K : Config.console -> Prop)
  (m : Config.E A) (R : B -> Prop) :
  keeps (Config.holds K) m ->
  hoare (lift (Config.holds K)) (mbind m (fun _ => ret None))
    (fun o w' => lift (Config.holds K) w' /\
                 forall b, o = Returned (Some b) -> R b).
Proof.
  intros Hm w Hw. specialize (Hm w Hw). unfold mbind.
  destruct (m w) as [[a| | |] w1]; cbn in *;
    (split; [exact Hm|intros; discriminate]).
Qed.

(** X14.  [q] is the only way out of [config].  When [config] returns, one
    of the lines the user typed was [q] or [Q]; after any other line the
    table is shown and the question asked again.  (It can also end by an
    exception of a step, or wait for input that never comes.) *)
Theorem config_returns_only_on_q (py_int : string -> option Z)
  (w : world Config.console) :
  fst (Config.config py_int w) = Returned tt ->
  exists line,
    In line (Config.typed (self w)) /\ PyText.lower line = "q"%string.
Proof.
  set (T0 := Config.typed (self w)).
  pose (K := fun c => incl (Config.typed c) T0).
  pose (R := fun _ : unit =>
               exists line, In line T0 /\ PyText.lower line = "q"%string).
  assert (HK : Config.respects K) by apply typed_respects.
  assert (HR : Config.rows_free K) by (intros c l H; exact H).
  assert (Hw : lift (Config.holds K) w) by apply incl_refl.
  cut (hoare (lift (Config.holds K)) (Config.config py_int)
         (fun o _ => o = Returned tt -> R tt)).
  { intros H. exact (H w Hw). }
  unfold Config.config.
  apply hoare_while_True
    with (Qb := fun o w' =>
                  lift (Config.holds K) w' /\
                  forall b, o = Returned (Some b) -> R b);
    try (intros; discriminate).
  - apply hoare_bind with (Q1 := fun _ => lift (Config.holds K));
      try (intros w' Hw'; split; [exact Hw'|intros; discriminate]).
    + now apply keeps_K_showProxyDict.
    + intros _.
      apply hoare_bind
        with (Q1 := fun o w' => lift (Config.holds K) w' /\
                                forall line, o = Returned line -> In line T0);
        try (intros w' [Hw' _]; split; [exact Hw'|intros; discriminate]).
      * intros w' Hw'. split; [now apply keeps_K_getInput|].
        rewrite getInput_eq. cbn [fst].
        destruct (Config.typed (self w')) as [|line' rest] eqn:Ht;
          [discriminate|].
        intros line H. injection H as <-. apply Hw'. rewrite Ht. now left.
      * intros response. cbv zeta.
        destruct (String.eqb (PyText.lower response) "a");
          [intros w' [H _];
           now apply (keeps_then_none K _ R ltac:(now apply keeps_K_addProxy))|].
        destruct (String.eqb (PyText.lower response) "e");
          [intros w' [H _];
           now apply (keeps_then_none K _ R ltac:(now apply keeps_K_editProxy))|].
        destruct (String.eqb (PyText.lower response) "d");
          [intros w' [H _];
           now apply (keeps_then_none K _ R ltac:(now apply keeps_K_deleteProxy))|].
        destruct (String.eqb (PyText.lower response) "s").
        { intros w' [H _]. apply (keeps_then_none K _ R); [|exact H].
          intros w1 Hw1. unfold lift, Config.holds, K in *.
          now rewrite save_reads_no_line. }
        destruct (String.eqb (PyText.lower response) "q") eqn:Hq.
        -- intros w' [H Hl]. split; [exact H|]. intros b _.
           exists response. split; [now apply Hl|now apply String.eqb_eq].
        -- intros w' [H _]. split; [exact H|]. intros; discriminate.
  - now intros w' [H _].
  - intros a w' [_ H] _. now apply (H a).
Qed.

Lemma config_returns_only_on_q_witness :
  exists line,
    In line ["s"%string; "Q"%string] /\ PyText.lower line = "q"%string.
Proof.
  apply (config_returns_only_on_q Config.plain_int
           (mkWorld
              (Config.mkConsole
                 [Config.mkRow (Some "0.0.0.0/32"%string) 9000
                    "127.0.0.1" 9001]
                 ["s"%string; "Q"%string] [] [] false true [] [] [])
              [] [])).
  vm_compute. reflexivity.
Defined.
